(** * The registry tool: scoring, declarative export and action planning

    A shallow embedding of three parts of the registry command line tool:
      - [Scoring]    cmd/registry/scoring/score.go
      - [Patch]      cmd/registry/patch (API export with relative names)
      - [Controller] cmd/registry/controller (the action planner)

    Go values are embedded as follows.  Fixed-width integers are [Z] with
    the conversion wrap-around written out ([int32]).  A float64 or float32
    is a [spec_float] (IEEE 754 binary format, sign / mantissa / exponent).
    A Go [error] is a value of the inductive type [error] of the module,
    one constructor per [fmt.Errorf] site; a function returning
    [(T, error)] returns [error + T].  Collaborators that live outside the
    embedded files (the registry client, the protobuf and YAML codecs, the
    expression evaluator) are the fields of a class per module, so that
    every property holds for all of them. *)

From Stdlib Require Import ZArith String Ascii List Bool Lia SpecFloat.
From stdpp Require Import base strings gmap list.

Open Scope string_scope.
Open Scope list_scope.
Open Scope Z_scope.

(** ** Go helpers shared by the modules *)

Definition bytes := list Byte.byte.

(** [int32(v)] for an integer [v]: the low 32 bits, read as two's complement. *)
Definition int32 (v : Z) : Z := (v + 2 ^ 31) mod 2 ^ 32 - 2 ^ 31.

Definition in_int32 (v : Z) : Prop := - 2 ^ 31 <= v < 2 ^ 31.

Definition in_int32b (v : Z) : bool := (- 2 ^ 31 <=? v) && (v <? 2 ^ 31).

(** [strings.Contains(s, substr)]. *)
Fixpoint strings_Contains (s substr : string) : bool :=
  String.prefix substr s ||
  match s with
  | EmptyString => false
  | String _ s' => strings_Contains s' substr
  end.

(** * Scoring *)

Module Scoring.

(** ** Data model (rpc.ScoreDefinition, rpc.Score, rpc.Artifact) *)

Inductive Severity := SEVERITY_UNSPECIFIED | ALERT | WARNING | OK.

(** rpc.NumberThreshold: a severity and an inclusive int32 range. *)
Record NumberThreshold := {
  nt_severity : Severity;
  nt_range_min : Z;
  nt_range_max : Z
}.

Record BooleanThreshold := {
  bt_severity : Severity;
  bt_value : bool
}.

Record IntegerType := {
  min_value : Z;
  max_value : Z;
  integer_thresholds : list NumberThreshold
}.

Record PercentType := {
  percent_thresholds : list NumberThreshold
}.

Record BooleanType := {
  display_true : string;
  display_false : string;
  boolean_thresholds : list BooleanThreshold
}.

(** The [type] oneof of a score definition. *)
Inductive ScoreType :=
| TypeInteger (i : IntegerType)
| TypePercent (p : PercentType)
| TypeBoolean (b : BooleanType)
| TypeUnset.

Record ScoreFormula := {
  artifact_pattern : string;
  score_expression : string;
  reference_id : string
}.

Record RollUpFormula := {
  score_formulas : list ScoreFormula;
  rollup_expression : string
}.

(** The [formula] oneof of a score definition. *)
Inductive Formula :=
| FormulaScore (f : ScoreFormula)
| FormulaRollup (r : RollUpFormula)
| FormulaUnset.

Record ScoreDefinition := {
  def_id : string;
  def_display_name : string;
  def_description : string;
  def_uri : string;
  def_uri_display_name : string;
  def_type : ScoreType;
  def_formula : Formula
}.

(** The dynamically typed result of an expression ([interface{}]): the
    three supported types, [nil], and any other dynamic type. *)
Inductive value :=
| VInt64 (v : Z)
| VFloat64 (v : spec_float)
| VBool (b : bool)
| VNil
| VOther (repr : string).

(** The [value] oneof of rpc.Score. *)
Inductive ScoreValue :=
| IntegerValue (v minv maxv : Z)
| PercentValue (v : spec_float)
| BooleanValue (v : bool) (display_value : string)
| NoValue.

Record Score := {
  score_id : string;
  score_kind : string;
  score_display_name : string;
  score_description : string;
  score_uri : string;
  score_uri_display_name : string;
  score_definition_name : string;
  score_severity : Severity;
  score_value : ScoreValue
}.

Definition set_severity (s : Score) (sev : Severity) : Score :=
  {| score_id := score_id s; score_kind := score_kind s;
     score_display_name := score_display_name s;
     score_description := score_description s;
     score_uri := score_uri s;
     score_uri_display_name := score_uri_display_name s;
     score_definition_name := score_definition_name s;
     score_severity := sev; score_value := score_value s |}.

Definition set_value (s : Score) (v : ScoreValue) : Score :=
  {| score_id := score_id s; score_kind := score_kind s;
     score_display_name := score_display_name s;
     score_description := score_description s;
     score_uri := score_uri s;
     score_uri_display_name := score_uri_display_name s;
     score_definition_name := score_definition_name s;
     score_severity := score_severity s; score_value := v |}.

(** rpc.Artifact.  [update_time] is the instant [GetUpdateTime().AsTime()]
    in nanoseconds since the Unix epoch; an unset timestamp reads as 0. *)
Record Artifact := {
  art_name : string;
  art_mime_type : string;
  art_contents : bytes;
  art_update_time : Z
}.

(** gRPC status codes, as far as the code distinguishes them. *)
Inductive Code := CodeNotFound | CodeUnknown | CodeOther (n : nat).

(** Errors.  [ErrStatus] is an error of the registry client (it carries a
    gRPC status); [ErrExternal] is an error of another collaborator; every
    other constructor is one [fmt.Errorf] site of score.go. *)
Inductive error :=
| ErrStatus (c : Code) (msg : string)
| ErrExternal (msg : string)
| ErrFetchArtifact (name : string) (e : error)
| ErrInvalidFormula
| ErrInvalidPattern (pattern : string) (f : ScoreFormula) (e : error)
| ErrMissingScoreExpression (f : ScoreFormula)
| ErrMissingScoreFormulas (r : RollUpFormula)
| ErrMissingRollupExpression (r : RollUpFormula)
| ErrRollupScoreFormula (e : error)
| ErrMissingReferenceId (f : ScoreFormula)
| ErrInvalidReferenceId (f : ScoreFormula)
| ErrTypecheckNumber (v : value)
| ErrTypecheckBool
| ErrInvalidArtifactPattern (pattern : string) (e : error)
| ErrSaveArtifact (name : string) (e : error).

(** [status.Code(err)]: the code of a status error, [Unknown] for any
    other error ([fmt.Errorf] with [%s] does not wrap its argument). *)
Definition status_Code (e : error) : Code :=
  match e with
  | ErrStatus c _ => c
  | _ => CodeUnknown
  end.

(** ** Collaborators *)

(** patterns.ResourceName, as far as score.go reads it: [String()] and
    [Project()]. *)
Record ResourceName := {
  rn_string : string;
  rn_project : string
}.

(** What score.go uses from other packages and from the rest of its own
    package: names, patterns, patch, proto, and the decoder and expression
    evaluator of package scoring.  [int32_unrepresentable] gives the bits
    of [int32(f)] when the truncated float64 does not fit in 32 bits (or
    [f] is not a number), which Go leaves implementation-dependent. *)
Class Packages := {
  names_Artifact : Type;
  names_ParseArtifact : string -> error + names_Artifact;
  patterns_SubstituteReferenceEntity : string -> ResourceName -> error + string;
  patterns_ResourceUpdateThreshold : Z;
  patch_MimeTypeForKind : string -> string;
  proto_Unmarshal : bytes -> error + ScoreDefinition;
  proto_Marshal : Score -> error + bytes;
  getMap : bytes -> string -> error + gmap string value;
  evaluateScoreExpression : string -> gmap string value -> error + value;
  int32_unrepresentable : spec_float -> Z
}.

(** The interface [artifactClient].  [GetArtifact] yields the artifact its
    handler receives, or the error of the call. *)
Class artifactClient (name : Type) := {
  GetArtifact : name -> bool -> error + Artifact;
  SetArtifact : Artifact -> option error
}.

(** What a run does to the outside: uploads and printed scores, in order. *)
Inductive effect :=
| EffSetArtifact (a : Artifact)
| EffPrintMessage (s : Score).

(** ** Numeric conversions of processScoreType *)

(** The integer part of a finite float64 [(-1)^s * m * 2^e], rounding
    toward zero. *)
Definition float64_trunc (s : bool) (m : positive) (e : Z) : Z :=
  let mag := Z.shiftl (Zpos m) e in
  if s then - mag else mag.

(** [float32(v)] for an integer and for a float64: round to nearest even
    in binary32 (precision 24, emax 128). *)
Definition float32_of_int (v : Z) : spec_float :=
  binary_normalize 24 128 v 0 false.

Definition float32_of_float64 (f : spec_float) : spec_float :=
  match f with
  | S754_finite s m e => binary_round 24 128 s m e
  | _ => f
  end.

(** The threshold loop of the integer case: the first range containing
    the value sets the severity and ends the loop. *)
Fixpoint integerSeverity (v : Z) (ts : list NumberThreshold) (sev : Severity)
  : Severity :=
  match ts with
  | [] => sev
  | t :: ts' =>
      if (nt_range_min t <=? v) && (v <=? nt_range_max t)
      then nt_severity t
      else integerSeverity v ts' sev
  end.

(** The threshold loop of the percent case. *)
Fixpoint percentSeverity (v : spec_float) (ts : list NumberThreshold)
  (sev : Severity) : Severity :=
  match ts with
  | [] => sev
  | t :: ts' =>
      if SFleb (float32_of_int (nt_range_min t)) v
         && SFleb v (float32_of_int (nt_range_max t))
      then nt_severity t
      else percentSeverity v ts' sev
  end.

(** The threshold loop of the boolean case: every matching threshold
    assigns the severity, and the loop runs to the end of the list. *)
Fixpoint booleanSeverity (boolVal : bool) (ts : list BooleanThreshold)
  (sev : Severity) : Severity :=
  match ts with
  | [] => sev
  | t :: ts' =>
      booleanSeverity boolVal ts'
        (if Bool.eqb (bt_value t) boolVal then bt_severity t else sev)
  end.

Definition FormatBool (b : bool) : string := if b then "true" else "false".

Definition is_empty (s : string) : bool :=
  match s with EmptyString => true | _ => false end.

Definition scoreID (definitionID : string) : string := "score-" +:+ definitionID.

(** [t.Add(d).After(u)] on instants. *)
Definition Add_After (t d u : Z) : bool := u <? t + d.

(** [a.GetUpdateTime().AsTime()] through the nil-safe getters: a nil
    artifact has the zero timestamp. *)
Definition GetUpdateTime (a : option Artifact) : Z :=
  match a with
  | Some a => art_update_time a
  | None => 0
  end.

Section WithCollaborators.

Context {pk : Packages} {client : artifactClient names_Artifact}.

(** [int32(v)] for a float64 [v]: the fraction is discarded. *)
Definition int32_of_float64 (f : spec_float) : Z :=
  match f with
  | S754_zero _ => 0
  | S754_finite s m e =>
      let t := float64_trunc s m e in
      if in_int32b t then t else int32 (int32_unrepresentable f)
  | _ => int32 (int32_unrepresentable f)
  end.

(** The type switch of the integer case. *)
Definition integerOfValue (scoreValue : value) : error + Z :=
  match scoreValue with
  | VInt64 v => inr (int32 v)
  | VFloat64 v => inr (int32_of_float64 v)
  | v => inl (ErrTypecheckNumber v)
  end.

(** The type switch of the percent case. *)
Definition percentOfValue (scoreValue : value) : error + spec_float :=
  match scoreValue with
  | VInt64 v => inr (float32_of_int v)
  | VFloat64 v => inr (float32_of_float64 v)
  | v => inl (ErrTypecheckNumber v)
  end.

Definition processScoreType (definition : ScoreDefinition)
  (scoreValue : value) (project : string) : error + Score :=
  let score :=
    {| score_id := "score-" +:+ def_id definition;
       score_kind := "Score";
       score_display_name := def_display_name definition;
       score_description := def_description definition;
       score_uri := def_uri definition;
       score_uri_display_name := def_uri_display_name definition;
       score_definition_name := project +:+ "/artifacts/" +:+ def_id definition;
       score_severity := SEVERITY_UNSPECIFIED;
       score_value := NoValue |} in
  match def_type definition with
  | TypeInteger i =>
      match integerOfValue scoreValue with
      | inl e => inl e
      | inr v =>
          let configuredMin := min_value i in
          let configuredMax := max_value i in
          let score :=
            set_value score (IntegerValue v configuredMin configuredMax) in
          if (v <? configuredMin) || (v >? configuredMax)
          then inr (set_severity score ALERT)
          else inr (set_severity score
                      (integerSeverity v (integer_thresholds i)
                         (score_severity score)))
      end
  | TypePercent p =>
      match percentOfValue scoreValue with
      | inl e => inl e
      | inr v =>
          let score := set_value score (PercentValue v) in
          if SFltb v (S754_zero false) || SFltb (float32_of_int 100) v
          then inr (set_severity score ALERT)
          else inr (set_severity score
                      (percentSeverity v (percent_thresholds p)
                         (score_severity score)))
      end
  | TypeBoolean b =>
      match scoreValue with
      | VBool boolVal =>
          let displayValue :=
            if boolVal && negb (is_empty (display_true b))
            then display_true b
            else if negb boolVal && negb (is_empty (display_false b))
            then display_false b
            else FormatBool boolVal in
          let score := set_value score (BooleanValue boolVal displayValue) in
          inr (set_severity score
                 (booleanSeverity boolVal (boolean_thresholds b)
                    (score_severity score)))
      | _ => inl ErrTypecheckBool
      end
  | TypeUnset => inr score
  end.

Definition getArtifact (artifactPattern : string) (getContents : bool)
  : error + Artifact :=
  match names_ParseArtifact artifactPattern with
  | inl e => inl (ErrInvalidArtifactPattern artifactPattern e)
  | inr artifactName =>
      match GetArtifact artifactName true with
      | inl e => inl e
      | inr gotArtifact => inr gotArtifact
      end
  end.

Definition uploadScore (resource : ResourceName) (score : Score)
  : option error * list effect :=
  match proto_Marshal score with
  | inl e => (Some e, [])
  | inr artifactBytes =>
      let artifact :=
        {| art_name := rn_string resource +:+ "/artifacts/" +:+ score_id score;
           art_contents := artifactBytes;
           art_mime_type := patch_MimeTypeForKind "Score";
           art_update_time := 0 |} in
      match SetArtifact artifact with
      | Some e =>
          (Some (ErrSaveArtifact (art_name artifact) e), [EffSetArtifact artifact])
      | None => (None, [EffSetArtifact artifact])
      end
  end.

(** The response of a formula. *)
Record scoreResult := {
  sr_value : value;
  sr_needsUpdate : bool;
  sr_err : option error
}.

Definition failed (e : error) : scoreResult :=
  {| sr_value := VNil; sr_needsUpdate := false; sr_err := Some e |}.

Definition processScoreFormula (formula : ScoreFormula)
  (resource : ResourceName) (scoreArtifact : option Artifact)
  (takeAction : bool) : scoreResult :=
  match patterns_SubstituteReferenceEntity (artifact_pattern formula) resource with
  | inl e => failed (ErrInvalidPattern (artifact_pattern formula) formula e)
  | inr extendedArtifact =>
      if is_empty (score_expression formula)
      then failed (ErrMissingScoreExpression formula)
      else
        match getArtifact extendedArtifact true with
        | inl e => failed (ErrFetchArtifact extendedArtifact e)
        | inr artifact =>
            let updateRequired :=
              takeAction ||
              Add_After (GetUpdateTime (Some artifact))
                patterns_ResourceUpdateThreshold (GetUpdateTime scoreArtifact) in
            match getMap (art_contents artifact) (art_mime_type artifact) with
            | inl e => failed e
            | inr artifactMap =>
                match evaluateScoreExpression (score_expression formula) artifactMap with
                | inl e => failed e
                | inr v =>
                    {| sr_value := v; sr_needsUpdate := updateRequired;
                       sr_err := None |}
                end
            end
        end
  end.

(** The loop of processRollUpFormula over the inner formulas, with the
    loop state [rollUpMap, updateRequired]; [inl] is an early return. *)
Fixpoint rollUpLoop (fs : list ScoreFormula) (resource : ResourceName)
  (scoreArtifact : option Artifact) (takeAction : bool)
  (rollUpMap : gmap string value) (updateRequired : bool)
  : error + (gmap string value * bool) :=
  match fs with
  | [] => inr (rollUpMap, updateRequired)
  | f :: fs' =>
      let result := processScoreFormula f resource scoreArtifact takeAction in
      match sr_err result with
      | Some e => inl (ErrRollupScoreFormula e)
      | None =>
          let refId := reference_id f in
          if is_empty refId then inl (ErrMissingReferenceId f)
          else if strings_Contains refId "-" then inl (ErrInvalidReferenceId f)
          else
            rollUpLoop fs' resource scoreArtifact takeAction
              (<[refId := sr_value result]> rollUpMap)
              (updateRequired || sr_needsUpdate result)
      end
  end.

Definition processRollUpFormula (formula : RollUpFormula)
  (resource : ResourceName) (scoreArtifact : option Artifact)
  (takeAction : bool) : scoreResult :=
  if (length (score_formulas formula) =? 0)%nat
  then failed (ErrMissingScoreFormulas formula)
  else if is_empty (rollup_expression formula)
  then failed (ErrMissingRollupExpression formula)
  else
    match rollUpLoop (score_formulas formula) resource scoreArtifact
            takeAction ∅ takeAction with
    | inl e => failed e
    | inr (rollUpMap, updateRequired) =>
        if updateRequired then
          match evaluateScoreExpression (rollup_expression formula) rollUpMap with
          | inl e => failed e
          | inr v => {| sr_value := v; sr_needsUpdate := true; sr_err := None |}
          end
        else {| sr_value := VNil; sr_needsUpdate := false; sr_err := None |}
    end.

Definition processFormula (definition : ScoreDefinition)
  (resource : ResourceName) (scoreArtifact : option Artifact)
  (takeAction : bool) : scoreResult :=
  match def_formula definition with
  | FormulaScore f => processScoreFormula f resource scoreArtifact takeAction
  | FormulaRollup r => processRollUpFormula r resource scoreArtifact takeAction
  | FormulaUnset => failed ErrInvalidFormula
  end.

Definition Code_is_NotFound (c : Code) : bool :=
  match c with CodeNotFound => true | _ => false end.

(** The staleness decision of CalculateScore: from the outcome of fetching
    the score artifact and the definition artifact, either the error the
    operation returns, or [scoreArtifact] (nil when absent) and [takeAction]. *)
Definition decideTakeAction (artifactName : string)
  (fetched : error + Artifact) (defArtifact : Artifact)
  : error + (option Artifact * bool) :=
  match
    match fetched with
    | inl err =>
        if Code_is_NotFound (status_Code err) then inr (None, true)
        else inl (ErrFetchArtifact artifactName err)
    | inr a => inr (Some a, false)
    end
  with
  | inl e => inl e
  | inr (scoreArtifact, takeAction) =>
      match scoreArtifact with
      | Some sa =>
          if Add_After (GetUpdateTime (Some defArtifact))
               patterns_ResourceUpdateThreshold (GetUpdateTime (Some sa))
          then inr (scoreArtifact, true)
          else inr (scoreArtifact, takeAction)
      | None => inr (scoreArtifact, takeAction)
      end
  end.

Definition CalculateScore (defArtifact : Artifact) (resource : ResourceName)
  (dryRun : bool) : option error * list effect :=
  let project := rn_project resource +:+ "/locations/global" in
  match proto_Unmarshal (art_contents defArtifact) with
  | inl e => (Some e, [])
  | inr definition =>
      let artifactName :=
        rn_string resource +:+ "/artifacts/" +:+ scoreID (def_id definition) in
      match decideTakeAction artifactName (getArtifact artifactName false)
              defArtifact with
      | inl e => (Some e, [])
      | inr (scoreArtifact, takeAction) =>
          let result := processFormula definition resource scoreArtifact takeAction in
          match sr_err result with
          | Some e => (Some e, [])
          | None =>
              if sr_needsUpdate result then
                match processScoreType definition (sr_value result) project with
                | inl e => (Some e, [])
                | inr score =>
                    if dryRun then (None, [EffPrintMessage score])
                    else uploadScore resource score
                end
              else (None, [])
          end
      end
  end.

End WithCollaborators.

(** ** Notions used to state the properties *)


Definition float_den (e : Z) : Z := 2 ^ Z.max (- e) 0.



(** The loop of processRollUpFormula gets past the inner formula [f]: its
    evaluation succeeds and its reference id is accepted. *)
Definition passes `{pk : Packages} `{client : !artifactClient names_Artifact}
  (resource : ResourceName) (scoreArtifact : option Artifact)
  (takeAction : bool) (f : ScoreFormula) : Prop :=
  sr_err (processScoreFormula f resource scoreArtifact takeAction) = None /\
  reference_id f <> "" /\ strings_Contains (reference_id f) "-" = false.

(** Storing the result of the inner formula [f] under its reference id. *)
Definition storeResult `{pk : Packages} `{client : !artifactClient names_Artifact}
  (resource : ResourceName) (scoreArtifact : option Artifact)
  (takeAction : bool) (m : gmap string value) (f : ScoreFormula)
  : gmap string value :=
  <[reference_id f :=
      sr_value (processScoreFormula f resource scoreArtifact takeAction)]> m.

(** The threshold [t] contains the integer [v]. *)
Definition in_range (v : Z) (t : NumberThreshold) : Prop :=
  nt_range_min t <= v <= nt_range_max t.

(** The ways the evaluation of a score formula on a resource fails, one
    per error return of processScoreFormula, in its order: the pattern
    does not resolve, the expression is missing, the artifact cannot be
    fetched, its contents do not decode to a map, the expression does
    not evaluate over that map.  [evaluationError resource f e]: the
    evaluation of [f] fails with [e]. *)
Inductive evaluationError `{pk : Packages}
  `{client : !artifactClient names_Artifact}
  (resource : ResourceName) (f : ScoreFormula) : error -> Prop :=
| error_pattern e :
    patterns_SubstituteReferenceEntity (artifact_pattern f) resource = inl e ->
    evaluationError resource f (ErrInvalidPattern (artifact_pattern f) f e)
| error_expression extended :
    patterns_SubstituteReferenceEntity (artifact_pattern f) resource
    = inr extended ->
    score_expression f = "" ->
    evaluationError resource f (ErrMissingScoreExpression f)
| error_fetch extended e :
    patterns_SubstituteReferenceEntity (artifact_pattern f) resource
    = inr extended ->
    score_expression f <> "" ->
    getArtifact extended true = inl e ->
    evaluationError resource f (ErrFetchArtifact extended e)
| error_decode extended artifact e :
    patterns_SubstituteReferenceEntity (artifact_pattern f) resource
    = inr extended ->
    score_expression f <> "" ->
    getArtifact extended true = inr artifact ->
    getMap (art_contents artifact) (art_mime_type artifact) = inl e ->
    evaluationError resource f e
| error_evaluate extended artifact m e :
    patterns_SubstituteReferenceEntity (artifact_pattern f) resource
    = inr extended ->
    score_expression f <> "" ->
    getArtifact extended true = inr artifact ->
    getMap (art_contents artifact) (art_mime_type artifact) = inr m ->
    evaluateScoreExpression (score_expression f) m = inl e ->
    evaluationError resource f e.

(** ** FetchScoreDefinitions *)

(** The listing method of the interface [artifactClient]: what the
    registry streams to the handler under a pattern and a filter, and the
    error the listing ends with, if any.  [fmt_q] is the verb [%q] of
    package fmt on a string. *)
Class artifactListing (name : Type) := {
  ListArtifacts : name -> string -> bool -> list Artifact * option error;
  fmt_q : string -> string
}.

(** [ListArtifacts] calls the handler on each artifact and stops at its
    first error; [st] is what the handler closes over. *)
Fixpoint eachArtifact {S : Type} (handler : Artifact -> S -> option error * S)
  (listed : list Artifact) (st : S) : option error * S :=
  match listed with
  | [] => (None, st)
  | a :: listed' =>
      match handler a st with
      | (Some e, st') => (Some e, st')
      | (None, st') => eachArtifact handler listed' st'
      end
  end.

Section Fetch.

Context {pk : Packages} {listing : artifactListing names_Artifact}.

(** The handler of FetchScoreDefinitions; it closes over [defArtifacts].
    A definition that does not decode is skipped, not an error. *)
Definition fetchHandler (artifact : Artifact) (defArtifacts : list Artifact)
  : option error * list Artifact :=
  match proto_Unmarshal (art_contents artifact) with
  | inl err1 => (None, defArtifacts)
  | inr definition => (None, defArtifacts ++ [artifact])
  end.

Definition FetchScoreDefinitions (project : string) : error + list Artifact :=
  match names_ParseArtifact (project +:+ "/locations/global/artifacts/-") with
  | inl err => inl err
  | inr artifact =>
      let listFilter :=
        "mime_type == " +:+ fmt_q (patch_MimeTypeForKind "ScoreDefinition") in
      let listed := ListArtifacts artifact listFilter true in
      match eachArtifact fetchHandler listed.1 [] with
      | (Some err, _) => inl err
      | (None, defArtifacts) =>
          match listed.2 with
          | Some err => inl err
          | None => inr defArtifacts
          end
      end
  end.

End Fetch.

End Scoring.

(** * Resource names *)

Module Names.

Inductive error := ErrInvalidName (kind name : string).

Record Api := {
  api_ProjectID : string;
  ApiID : string
}.

Record Version := {
  version_ProjectID : string;
  version_ApiID : string;
  VersionID : string
}.

Record Deployment := {
  deployment_ProjectID : string;
  deployment_ApiID : string;
  DeploymentID : string
}.

(** An artifact name whose parent is an API. *)
Record Artifact := {
  artifact_ProjectID : string;
  artifact_ApiID : string;
  ArtifactID : string
}.

(** [strings.Split(s, sep)] for a one-character separator. *)
Fixpoint split (sep : ascii) (s : string) : list string :=
  match s with
  | EmptyString => [EmptyString]
  | String c s' =>
      if Ascii.eqb c sep then EmptyString :: split sep s'
      else
        match split sep s' with
        | seg :: segs => String c seg :: segs
        | [] => [String c EmptyString]
        end
  end.

(** Modelled from the spec: the identifier charset of the resource-name
    grammar, [[a-z0-9-._~%]+]; package names is not among the embedded
    files. *)
Definition idChar (c : ascii) : bool :=
  let n := nat_of_ascii c in
  ((97 <=? n) && (n <=? 122))%nat || ((48 <=? n) && (n <=? 57))%nat
  || Ascii.eqb c "-" || Ascii.eqb c "." || Ascii.eqb c "_"
  || Ascii.eqb c "~" || Ascii.eqb c "%".

Definition validID (s : string) : bool :=
  negb (String.eqb s "") && forallb idChar (list_ascii_of_string s).

(** Modelled from the spec: names.ParseApi, the parser of
    [projects/{p}/locations/global/apis/{a}]. *)
Definition ParseApi (name : string) : error + Api :=
  match split "/" name with
  | [k1; p; k2; l; k3; a] =>
      if String.eqb k1 "projects" && String.eqb k2 "locations"
         && String.eqb l "global" && String.eqb k3 "apis"
         && validID p && validID a
      then inr {| api_ProjectID := p; ApiID := a |}
      else inl (ErrInvalidName "api" name)
  | _ => inl (ErrInvalidName "api" name)
  end.

(** Modelled from the spec: names.ParseVersion, the parser of
    [projects/{p}/locations/global/apis/{a}/versions/{v}]. *)
Definition ParseVersion (name : string) : error + Version :=
  match split "/" name with
  | [k1; p; k2; l; k3; a; k4; v] =>
      if String.eqb k1 "projects" && String.eqb k2 "locations"
         && String.eqb l "global" && String.eqb k3 "apis"
         && String.eqb k4 "versions"
         && validID p && validID a && validID v
      then inr {| version_ProjectID := p; version_ApiID := a; VersionID := v |}
      else inl (ErrInvalidName "version" name)
  | _ => inl (ErrInvalidName "version" name)
  end.

(** Modelled from the spec: names.ParseDeployment, the parser of
    [projects/{p}/locations/global/apis/{a}/deployments/{d}]. *)
Definition ParseDeployment (name : string) : error + Deployment :=
  match split "/" name with
  | [k1; p; k2; l; k3; a; k4; d] =>
      if String.eqb k1 "projects" && String.eqb k2 "locations"
         && String.eqb l "global" && String.eqb k3 "apis"
         && String.eqb k4 "deployments"
         && validID p && validID a && validID d
      then inr {| deployment_ProjectID := p; deployment_ApiID := a;
                  DeploymentID := d |}
      else inl (ErrInvalidName "deployment" name)
  | _ => inl (ErrInvalidName "deployment" name)
  end.

(** Modelled from the spec: the renderer [Api.String()], the canonical
    slash form. *)
Definition Api_String (a : Api) : string :=
  "projects/" +:+ api_ProjectID a +:+ "/locations/global/apis/" +:+ ApiID a.

(** [Version.Api()] and [Deployment.Api()]: the parent API. *)
Definition Version_Api (v : Version) : Api :=
  {| api_ProjectID := version_ProjectID v; ApiID := version_ApiID v |}.

Definition Deployment_Api (d : Deployment) : Api :=
  {| api_ProjectID := deployment_ProjectID d; ApiID := deployment_ApiID d |}.

(** [Api.Version(id)], [Api.Deployment(id)]: a child name of an API. *)
Definition Api_Version (a : Api) (id : string) : Version :=
  {| version_ProjectID := api_ProjectID a; version_ApiID := ApiID a;
     VersionID := id |}.

Definition Api_Deployment (a : Api) (id : string) : Deployment :=
  {| deployment_ProjectID := api_ProjectID a; deployment_ApiID := ApiID a;
     DeploymentID := id |}.

Definition Api_Artifact (a : Api) (id : string) : Artifact :=
  {| artifact_ProjectID := api_ProjectID a; artifact_ApiID := ApiID a;
     ArtifactID := id |}.

(** The number of ['/'] in a string. *)
Fixpoint slashes (s : string) : nat :=
  match s with
  | EmptyString => O
  | String c s' => ((if Ascii.eqb c "/" then 1 else 0) + slashes s')%nat
  end.

(** An API name as the parser produces it. *)
Definition validApi (a : Api) : Prop :=
  validID (api_ProjectID a) = true /\ validID (ApiID a) = true.

(** A project, with the location [global]. *)
Record Project := {
  ProjectID : string
}.

(** Modelled from the spec: names.ParseProjectWithLocation, the parser of
    [projects/{p}/locations/global]. *)
Definition ParseProjectWithLocation (name : string) : error + Project :=
  match split "/" name with
  | [k1; p; k2; l] =>
      if String.eqb k1 "projects" && String.eqb k2 "locations"
         && String.eqb l "global" && validID p
      then inr {| ProjectID := p |}
      else inl (ErrInvalidName "project" name)
  | _ => inl (ErrInvalidName "project" name)
  end.

(** [Project.Api(id)]: a child name of a project. *)
Definition Project_Api (p : Project) (id : string) : Api :=
  {| api_ProjectID := ProjectID p; ApiID := id |}.

(** Modelled from the spec: the renderers [Project.String()],
    [Version.String()] and [Deployment.String()]. *)
Definition Project_String (p : Project) : string :=
  "projects/" +:+ ProjectID p +:+ "/locations/global".

Definition Version_String (v : Version) : string :=
  "projects/" +:+ version_ProjectID v +:+ "/locations/global/apis/"
  +:+ version_ApiID v +:+ "/versions/" +:+ VersionID v.

Definition Deployment_String (d : Deployment) : string :=
  "projects/" +:+ deployment_ProjectID d +:+ "/locations/global/apis/"
  +:+ deployment_ApiID d +:+ "/deployments/" +:+ DeploymentID d.

(** [strings.Join(segs, "/")] *)
Fixpoint join (segs : list string) : string :=
  match segs with
  | [] => ""
  | [seg] => seg
  | seg :: segs' => seg +:+ String "/" (join segs')
  end.

End Names.

(** * Declarative export of an API *)

Module Patch.

Inductive error :=
| ErrName (e : Names.error)
| ErrExternal (msg : string).

(** rpc.Api *)
Record rpc_Api := {
  Name : string;
  DisplayName : string;
  Description : string;
  Availability : string;
  RecommendedVersion : string;
  RecommendedDeployment : string;
  Labels : gmap string string;
  Annotations : gmap string string
}.

(** rpc.Artifact, as export reads it. *)
Record rpc_Artifact := {
  artifact_Name : string;
  artifact_MimeType : string;
  artifact_Contents : bytes
}.

(** models.Metadata and models.Header *)
Record Metadata := {
  md_Name : string;
  md_Parent : string;
  md_Labels : gmap string string;
  md_Annotations : gmap string string
}.

Record Header := {
  ApiVersion : string;
  Kind : string;
  hd_Metadata : Metadata
}.

Definition set_Parent (m : Metadata) (parent : string) : Metadata :=
  {| md_Name := md_Name m; md_Parent := parent; md_Labels := md_Labels m;
     md_Annotations := md_Annotations m |}.

(** A document of the models package: the header and a payload. *)
Record Document (D : Type) := {
  doc_Header : Header;
  doc_Data : D
}.
Arguments doc_Header {D} _.
Arguments doc_Data {D} _.
Arguments Build_Document {D} _ _.

(** [x.ApiVersion = ""; x.Kind = ""; x.Metadata.Parent = ""] *)
Definition unset_inferred {D} (x : Document D) : Document D :=
  {| doc_Header :=
       {| ApiVersion := ""; Kind := "";
          hd_Metadata := set_Parent (hd_Metadata (doc_Header x)) "" |};
     doc_Data := doc_Data x |}.

(** [x.ApiVersion = ""; x.Metadata.Parent = ""] *)
Definition unset_inferred_artifact {D} (x : Document D) : Document D :=
  {| doc_Header :=
       {| ApiVersion := ""; Kind := Kind (doc_Header x);
          hd_Metadata := set_Parent (hd_Metadata (doc_Header x)) "" |};
     doc_Data := doc_Data x |}.

Inductive logEntry :=
| WarnSkippingError (name : string) (e : error)
| WarnSkipping (name : string).

(** [for each item { if err := handler(item); err != nil { return err } }]
    with the variables the handler closes over as the state [st]. *)
Fixpoint forEach {M S : Type} (handler : M -> S -> option error * S)
  (ms : list M) (st : S) : option error * S :=
  match ms with
  | [] => (None, st)
  | m :: ms' =>
      match handler m st with
      | (Some e, st') => (Some e, st')
      | (None, st') => forEach handler ms' st'
      end
  end.

(** Modelled from the spec: the listing operations of package core
    (ListVersions, ListDeployments, ListArtifacts), which are not among the
    embedded files.  A listing streams the matching resources to the
    handler and returns the first error of the handler or of the
    registry; [listing] is what the registry streams, and the error it
    ends with, if any. *)
Definition listWith {M S : Type} (listing : list M * option error)
  (handler : M -> S -> option error * S) (st : S) : option error * S :=
  match forEach handler (fst listing) st with
  | (Some e, st') => (Some e, st')
  | (None, st') => (snd listing, st')
  end.

Definition RegistryV1 : string := "apigeeregistry/v1".

(** The registry and the parts of package patch outside the embedded file:
    what the registry lists under a pattern, the builders of the child
    documents (each returns what it logged), and the YAML encoder. *)
Class Registry := {
  rpc_ApiVersion : Type;
  rpc_ApiDeployment : Type;
  VersionData : Type;
  DeploymentData : Type;
  ArtifactData : Type;
  registry_ListVersions : Names.Version -> string -> list rpc_ApiVersion * option error;
  registry_ListDeployments : Names.Deployment -> string -> list rpc_ApiDeployment * option error;
  registry_ListArtifacts : Names.Artifact -> string -> bool -> list rpc_Artifact * option error;
  newApiVersion : rpc_ApiVersion -> bool -> (error + Document VersionData) * list logEntry;
  newApiDeployment : rpc_ApiDeployment -> bool -> (error + Document DeploymentData) * list logEntry;
  newArtifact : rpc_Artifact -> error + Document ArtifactData
}.

Section WithRegistry.

Context {registry : Registry}.

(** models.ApiData *)
Record ApiData := {
  data_DisplayName : string;
  data_Description : string;
  data_Availability : string;
  data_RecommendedVersion : string;
  data_RecommendedDeployment : string;
  ApiVersions : option (list (Document VersionData));
  ApiDeployments : option (list (Document DeploymentData));
  Artifacts : option (list (Document ArtifactData))
}.

Variable yaml_Encode : Document ApiData -> error + bytes.

(** relativeVersionName returns the version id if the version is within
    the specified API *)
Definition relativeVersionName (apiName : Names.Api) (version : string)
  : error + string :=
  if String.eqb version "" then inr ""
  else
    match Names.ParseVersion version with
    | inl e => inl (ErrName e)
    | inr versionName =>
        if String.eqb (Names.Api_String (Names.Version_Api versionName))
             (Names.Api_String apiName)
        then inr (Names.VersionID versionName)
        else inr version
    end.

(** relativeDeploymentName returns the deployment id if the deployment is
    within the specified API *)
Definition relativeDeploymentName (apiName : Names.Api) (deployment : string)
  : error + string :=
  if String.eqb deployment "" then inr ""
  else
    match Names.ParseDeployment deployment with
    | inl e => inl (ErrName e)
    | inr deploymentName =>
        if String.eqb (Names.Api_String (Names.Deployment_Api deploymentName))
             (Names.Api_String apiName)
        then inr (Names.DeploymentID deploymentName)
        else inr deployment
    end.

(** The handler of collectChildArtifacts; it closes over [artifacts] and
    the logger. *)
Definition collectHandler (message : rpc_Artifact)
  (st : list (Document ArtifactData) * list logEntry)
  : option error * (list (Document ArtifactData) * list logEntry) :=
  let '(artifacts, log) := st in
  match newArtifact message with
  | inl err =>
      (None, (artifacts,
              (log ++ [WarnSkippingError (artifact_Name message) err])%list))
  | inr artifact =>
      if String.eqb (Kind (doc_Header artifact)) "Artifact"
      then (None, (artifacts,
                   (log ++ [WarnSkipping (artifact_Name message)])%list))
      else (None, ((artifacts ++ [unset_inferred_artifact artifact])%list, log))
  end.

(** What a listed artifact contributes to the export, and to the log. *)
Definition exported (message : rpc_Artifact) : option (Document ArtifactData) :=
  match newArtifact message with
  | inl _ => None
  | inr artifact =>
      if String.eqb (Kind (doc_Header artifact)) "Artifact" then None
      else Some (unset_inferred_artifact artifact)
  end.

Definition skipped (message : rpc_Artifact) : option logEntry :=
  match newArtifact message with
  | inl err => Some (WarnSkippingError (artifact_Name message) err)
  | inr artifact =>
      if String.eqb (Kind (doc_Header artifact)) "Artifact"
      then Some (WarnSkipping (artifact_Name message))
      else None
  end.

Definition collectChildArtifacts (artifactPattern : Names.Artifact)
  : (error + list (Document ArtifactData)) * list logEntry :=
  match listWith (registry_ListArtifacts artifactPattern "" true)
          collectHandler ([], []) with
  | (Some err, (_, log)) => (inl err, log)
  | (None, (artifacts, log)) => (inr artifacts, log)
  end.

(** The handlers of the version and deployment listings of newApi; each
    closes over its slice and, through the child builder, the logger. *)
Definition versionHandler (message : rpc_ApiVersion)
  (st : list (Document VersionData) * list logEntry)
  : option error * (list (Document VersionData) * list logEntry) :=
  let '(versions, log) := st in
  match newApiVersion message true with
  | (inl err, l) => (Some err, (versions, (log ++ l)%list))
  | (inr version, l) =>
      (None, ((versions ++ [unset_inferred version])%list, (log ++ l)%list))
  end.

Definition deploymentHandler (message : rpc_ApiDeployment)
  (st : list (Document DeploymentData) * list logEntry)
  : option error * (list (Document DeploymentData) * list logEntry) :=
  let '(deployments, log) := st in
  match newApiDeployment message true with
  | (inl err, l) => (Some err, (deployments, (log ++ l)%list))
  | (inr deployment, l) =>
      (None, ((deployments ++ [unset_inferred deployment])%list, (log ++ l)%list))
  end.

(** The children of a nested export: versions, deployments, artifacts. *)
Definition newApiChildren (apiName : Names.Api)
  : (error + (list (Document VersionData) * list (Document DeploymentData)
              * list (Document ArtifactData))) * list logEntry :=
  match listWith (registry_ListVersions (Names.Api_Version apiName "-") "")
          versionHandler ([], []) with
  | (Some err, (_, log)) => (inl err, log)
  | (None, (versions, log)) =>
      match listWith (registry_ListDeployments (Names.Api_Deployment apiName "-") "")
              deploymentHandler ([], log) with
      | (Some err, (_, log)) => (inl err, log)
      | (None, (deployments, log)) =>
          match collectChildArtifacts (Names.Api_Artifact apiName "-") with
          | (inl err, l) => (inl err, (log ++ l)%list)
          | (inr artifacts, l) =>
              (inr (versions, deployments, artifacts), (log ++ l)%list)
          end
      end
  end.

Definition newApi (message : rpc_Api) (nested : bool)
  : (error + Document ApiData) * list logEntry :=
  match Names.ParseApi (Name message) with
  | inl err => (inl (ErrName err), [])
  | inr apiName =>
      match relativeVersionName apiName (RecommendedVersion message) with
      | inl err => (inl err, [])
      | inr recommendedVersion =>
          match relativeDeploymentName apiName (RecommendedDeployment message) with
          | inl err => (inl err, [])
          | inr recommendedDeployment =>
              let build versions deployments artifacts :=
                {| doc_Header :=
                     {| ApiVersion := RegistryV1;
                        Kind := "API";
                        hd_Metadata :=
                          {| md_Name := Names.ApiID apiName;
                             md_Parent := "";
                             md_Labels := Labels message;
                             md_Annotations := Annotations message |} |};
                   doc_Data :=
                     {| data_DisplayName := DisplayName message;
                        data_Description := Description message;
                        data_Availability := Availability message;
                        data_RecommendedVersion := recommendedVersion;
                        data_RecommendedDeployment := recommendedDeployment;
                        ApiVersions := versions;
                        ApiDeployments := deployments;
                        Artifacts := artifacts |} |} in
              if nested then
                match newApiChildren apiName with
                | (inl err, log) => (inl err, log)
                | (inr (versions, deployments, artifacts), log) =>
                    (inr (build (Some versions) (Some deployments) (Some artifacts)),
                     log)
                end
              else (inr (build None None None), [])
          end
      end
  end.

(** ExportAPI allows an API to be individually exported as a YAML file. *)
Definition ExportAPI (message : rpc_Api) (nested : bool)
  : (error + (bytes * Header)) * list logEntry :=
  match newApi message nested with
  | (inl err, log) => (inl err, log)
  | (inr api, log) =>
      match yaml_Encode api with
      | inl err => (inl err, log)
      | inr b => (inr (b, doc_Header api), log)
      end
  end.

End WithRegistry.

(** ** Applying an API document *)

(** optionalVersionName returns a version name if the id is not empty *)
Definition optionalVersionName (apiName : Names.Api) (versionID : string)
  : string :=
  if String.eqb versionID "" then ""
  else Names.Version_String (Names.Api_Version apiName versionID).

(** optionalDeploymentName returns a deployment name if the id is not empty *)
Definition optionalDeploymentName (apiName : Names.Api) (deploymentID : string)
  : string :=
  if String.eqb deploymentID "" then ""
  else Names.Deployment_String (Names.Api_Deployment apiName deploymentID).

(** rpc.UpdateApiRequest *)
Record UpdateApiRequest := {
  req_Api : rpc_Api;
  req_AllowMissing : bool
}.

(** What applyApiPatchBytes uses from outside the embedded file: the YAML
    decoder, the registry client, and the appliers of the child
    documents.  The registry calls act on the state of the registry. *)
Class Applier `{registry : Registry} := {
  RegistryState : Type;
  yaml_Unmarshal : bytes -> error + Document ApiData;
  client_UpdateApi : UpdateApiRequest -> RegistryState -> option error * RegistryState;
  applyApiVersionPatch :
    Document VersionData -> string -> RegistryState -> option error * RegistryState;
  applyApiDeploymentPatch :
    Document DeploymentData -> string -> RegistryState -> option error * RegistryState;
  applyArtifactPatch :
    Document ArtifactData -> string -> RegistryState -> option error * RegistryState
}.

Section WithApplier.

Context {registry : Registry} {applier : Applier}.

(** The calls a run makes on the registry, in order. *)
Inductive call :=
| CallUpdateApi (req : UpdateApiRequest)
| CallApplyVersion (patch : Document VersionData) (parent : string)
| CallApplyDeployment (patch : Document DeploymentData) (parent : string)
| CallApplyArtifact (patch : Document ArtifactData) (parent : string).

(** [for _, patch := range patches { if err := apply(patch, parent);
    err != nil { return err } }] *)
Fixpoint applyAll {D : Type}
  (apply : D -> string -> RegistryState -> option error * RegistryState)
  (record : D -> string -> call) (patches : list D) (parent : string)
  (st : RegistryState) (calls : list call)
  : option error * (RegistryState * list call) :=
  match patches with
  | [] => (None, (st, calls))
  | patch :: rest =>
      match apply patch parent st with
      | (Some err, st') => (Some err, (st', calls ++ [record patch parent]))
      | (None, st') =>
          applyAll apply record rest parent st' (calls ++ [record patch parent])
      end
  end.

(** A nil slice ranges over nothing. *)
Definition slice {D : Type} (l : option (list D)) : list D :=
  match l with
  | Some l => l
  | None => []
  end.

Definition applyApiPatchBytes (bytes : bytes) (parent : string)
  (st : RegistryState) : option error * (RegistryState * list call) :=
  match yaml_Unmarshal bytes with
  | inl err => (Some err, (st, []))
  | inr api =>
      match Names.ParseProjectWithLocation parent with
      | inl err => (Some (ErrName err), (st, []))
      | inr projectName =>
          let apiName :=
            Names.Project_Api projectName (md_Name (hd_Metadata (doc_Header api))) in
          let req :=
            {| req_Api :=
                 {| Name := Names.Api_String apiName;
                    DisplayName := data_DisplayName (doc_Data api);
                    Description := data_Description (doc_Data api);
                    Availability := data_Availability (doc_Data api);
                    RecommendedVersion :=
                      optionalVersionName apiName
                        (data_RecommendedVersion (doc_Data api));
                    RecommendedDeployment :=
                      optionalDeploymentName apiName
                        (data_RecommendedDeployment (doc_Data api));
                    Labels := md_Labels (hd_Metadata (doc_Header api));
                    Annotations := md_Annotations (hd_Metadata (doc_Header api)) |};
               req_AllowMissing := true |} in
          match client_UpdateApi req st with
          | (Some err, st) => (Some err, (st, [CallUpdateApi req]))
          | (None, st) =>
              match applyAll applyApiVersionPatch CallApplyVersion
                      (slice (ApiVersions (doc_Data api)))
                      (Names.Api_String apiName) st [CallUpdateApi req] with
              | (Some err, r) => (Some err, r)
              | (None, (st, calls)) =>
                  match applyAll applyApiDeploymentPatch CallApplyDeployment
                          (slice (ApiDeployments (doc_Data api)))
                          (Names.Api_String apiName) st calls with
                  | (Some err, r) => (Some err, r)
                  | (None, (st, calls)) =>
                      applyAll applyArtifactPatch CallApplyArtifact
                        (slice (Artifacts (doc_Data api)))
                        (Names.Api_String apiName) st calls
                  end
              end
          end
      end
  end.

(** *** Notions used to state the properties *)

(** Performing one recorded call on the registry. *)
Definition perform (c : call) (st : RegistryState)
  : option error * RegistryState :=
  match c with
  | CallUpdateApi req => client_UpdateApi req st
  | CallApplyVersion patch parent => applyApiVersionPatch patch parent st
  | CallApplyDeployment patch parent => applyApiDeploymentPatch patch parent st
  | CallApplyArtifact patch parent => applyArtifactPatch patch parent st
  end.

(** Performing calls one after the other, up to the first that fails. *)
Fixpoint performAll (cs : list call) (st : RegistryState) (calls : list call)
  : option error * (RegistryState * list call) :=
  match cs with
  | [] => (None, (st, calls))
  | c :: cs' =>
      match perform c st with
      | (Some err, st') => (Some err, (st', calls ++ [c]))
      | (None, st') => performAll cs' st' (calls ++ [c])
      end
  end.

(** The request applyApiPatchBytes sends for a document under a project. *)
Definition updateRequest (api : Document ApiData) (projectName : Names.Project)
  : UpdateApiRequest :=
  let apiName :=
    Names.Project_Api projectName (md_Name (hd_Metadata (doc_Header api))) in
  {| req_Api :=
       {| Name := Names.Api_String apiName;
          DisplayName := data_DisplayName (doc_Data api);
          Description := data_Description (doc_Data api);
          Availability := data_Availability (doc_Data api);
          RecommendedVersion :=
            optionalVersionName apiName (data_RecommendedVersion (doc_Data api));
          RecommendedDeployment :=
            optionalDeploymentName apiName
              (data_RecommendedDeployment (doc_Data api));
          Labels := md_Labels (hd_Metadata (doc_Header api));
          Annotations := md_Annotations (hd_Metadata (doc_Header api)) |};
     req_AllowMissing := true |}.

(** The calls a document asks for: the API first, then its versions, its
    deployments and its artifacts, each in document order. *)
Definition plannedCalls (api : Document ApiData) (projectName : Names.Project)
  : list call :=
  let parent :=
    Names.Api_String
      (Names.Project_Api projectName (md_Name (hd_Metadata (doc_Header api)))) in
  CallUpdateApi (updateRequest api projectName)
  :: ((fun patch => CallApplyVersion patch parent)
        <$> slice (ApiVersions (doc_Data api)))
  ++ ((fun patch => CallApplyDeployment patch parent)
        <$> slice (ApiDeployments (doc_Data api)))
  ++ ((fun patch => CallApplyArtifact patch parent)
        <$> slice (Artifacts (doc_Data api))).

(** The fields of a child document that its position implies are unset. *)
Definition inferred_unset {D : Type} (x : Document D) : Prop :=
  ApiVersion (doc_Header x) = "" /\ Kind (doc_Header x) = "" /\
  md_Parent (hd_Metadata (doc_Header x)) = "".

End WithApplier.

End Patch.

(** * The action planner *)

Module Controller.

(** controller.Action *)
Record Action := {
  Command : string;
  GeneratedResource : string;
  RequiresReceipt : bool
}.

(** rpc.Dependency, rpc.GeneratedResource and rpc.Manifest *)
Record Dependency := {
  dep_Pattern : string;
  dep_Filter : string
}.

Record GeneratedResource_ := {
  Pattern : string;
  Filter : string;
  Dependencies : list Dependency;
  Action_ : string;
  Receipt : bool
}.

Record Manifest := {
  Id : string;
  GeneratedResources : list GeneratedResource_
}.

(** A candidate target of a generated resource after expansion against
    the registry: its revision-qualified name, its update time (absent
    when the artifact does not exist yet), for each dependency pattern the
    update times of the resources it expands to, and the substituted
    command. *)
Record Candidate := {
  cand_name : string;
  cand_update_time : option Z;
  cand_dependencies : list (list Z);
  cand_command : string
}.

(** The pattern engine over the registry lister, and the slack of the
    staleness oracle. *)
Class PatternEngine := {
  expandCandidates : string -> GeneratedResource_ -> option (list Candidate);
  slack : Z
}.

Section Planner.

Context {engine : PatternEngine}.

(** Modelled from the spec: a candidate is realizable when every
    dependency pattern expands to at least one resource. *)
Definition realizable (c : Candidate) : bool :=
  forallb (fun ds => negb (length ds =? 0)%nat) (cand_dependencies c).

(** Modelled from the spec: the staleness oracle; an action is due iff
    the target is absent or some dependency time plus the slack is after
    the target time. *)
Definition stale (c : Candidate) : bool :=
  match cand_update_time c with
  | None => true
  | Some tT => existsb (fun tD => tT <? tD + slack) (concat (cand_dependencies c))
  end.

(** Modelled from the spec: the actions of one generated resource; an
    entry whose expansion fails yields no action. *)
Definition resourceActions (projectID : string) (g : GeneratedResource_)
  : list Action :=
  match expandCandidates projectID g with
  | None => []
  | Some cs =>
      omap (fun c =>
              if realizable c && stale c
              then Some {| Command := cand_command c;
                           GeneratedResource := cand_name c;
                           RequiresReceipt := Receipt g |}
              else None) cs
  end.

(** Modelled from the spec: actions are accumulated globally; when the
    count reaches [maxActions] planning halts ([true]) with what has
    been produced so far. *)
Fixpoint accumulate (maxActions : nat) (new actions : list Action)
  : list Action * bool :=
  match new with
  | [] => (actions, (maxActions <=? length actions)%nat)
  | a :: new' =>
      if (maxActions <=? length actions)%nat then (actions, true)
      else accumulate maxActions new' (actions ++ [a])%list
  end.

Fixpoint planLoop (maxActions : nat) (projectID : string)
  (gs : list GeneratedResource_) (actions : list Action) : list Action :=
  match gs with
  | [] => actions
  | g :: gs' =>
      match accumulate maxActions (resourceActions projectID g) actions with
      | (actions', true) => actions'
      | (actions', false) => planLoop maxActions projectID gs' actions'
      end
  end.

(** Modelled from the spec: actions are sorted by command string before
    return. *)
Fixpoint insertAction (a : Action) (l : list Action) : list Action :=
  match l with
  | [] => [a]
  | b :: l' =>
      if String.leb (Command a) (Command b) then a :: b :: l'
      else b :: insertAction a l'
  end.

Definition sortActions (l : list Action) : list Action :=
  foldr insertAction [] l.

(** Modelled from the spec: the planner [plan(manifest, projectId,
    maxActions)], ProcessManifest in package controller; only its tests are
    among the embedded files.  The cap is a count of actions. *)
Definition ProcessManifest (projectID : string) (manifest : Manifest)
  (maxActions : nat) : list Action :=
  sortActions (planLoop maxActions projectID (GeneratedResources manifest) []).

End Planner.

End Controller.

(** * The generated admin client *)

Module Gapic.

Definition MaxInt32 : Z := 2 ^ 31 - 1.

(** rpc.ListProjectsRequest *)
Record ListProjectsRequest := {
  lp_PageSize : Z;
  lp_PageToken : string;
  lp_Filter : string;
  lp_OrderBy : string
}.

(** The paging part of [InternalFetch] in ListProjects: the page token
    and page size of the iterator are written into the request;
    [pageSize] is a Go [int] (64 bits). *)
Definition setPaging (pageSize : Z) (pageToken : string)
  (req : ListProjectsRequest) : ListProjectsRequest :=
  let req :=
    if negb (String.eqb pageToken "")
    then {| lp_PageSize := lp_PageSize req; lp_PageToken := pageToken;
            lp_Filter := lp_Filter req; lp_OrderBy := lp_OrderBy req |}
    else req in
  if pageSize >? MaxInt32
  then {| lp_PageSize := MaxInt32; lp_PageToken := lp_PageToken req;
          lp_Filter := lp_Filter req; lp_OrderBy := lp_OrderBy req |}
  else if negb (pageSize =? 0)
  then {| lp_PageSize := int32 pageSize; lp_PageToken := lp_PageToken req;
          lp_Filter := lp_Filter req; lp_OrderBy := lp_OrderBy req |}
  else req.

End Gapic.

(** * The command that activates a configuration *)

Module Configurations.

Inductive error :=
| ErrConfig (msg : string)
| ErrCannotRead (name : string) (e : error)
| ErrCannotActivate (name : string) (e : error).

(** The two fields of cobra.Command that the command writes. *)
Record Command := {
  SilenceUsage : bool;
  SilenceErrors : bool
}.

(** Package config, which is outside the embedded files: the validation
    of a name, and reading and activating a configuration in the
    configuration directory, whose contents are the state. *)
Class Config := {
  ConfigDir : Type;
  Configuration : Type;
  ValidateName : string -> option error;
  Read : string -> ConfigDir -> error + Configuration;
  Activate : string -> ConfigDir -> option error * ConfigDir;
  fmt_q : string -> string
}.

(** What a call of [RunE] leaves: the error it returns, the command, the
    configuration directory, and what [cmd.Printf] printed. *)
Record Outcome `{config : Config} := {
  returned : option error;
  command : Command;
  directory : ConfigDir;
  printed : list string
}.

Section Activate.

Context {config : Config}.

(** The function [RunE] of the command activateCommand builds.  It sets
    both silence fields of the command first; [None] is the run-time panic
    of [args[0]] on an empty argument list, which [cobra.ExactArgs(1)]
    keeps from [RunE]. *)
Definition RunE (cmd : Command) (args : list string) (dir : ConfigDir)
  : option Outcome :=
  let cmd := {| SilenceUsage := true; SilenceErrors := SilenceErrors cmd |} in
  let cmd := {| SilenceUsage := SilenceUsage cmd; SilenceErrors := true |} in
  match args with
  | [] => None
  | name :: _ =>
      match ValidateName name with
      | Some err =>
          Some {| returned := Some err; command := cmd; directory := dir;
                  printed := [] |}
      | None =>
          match Read name dir with
          | inl err =>
              Some {| returned := Some (ErrCannotRead name err);
                      command := cmd; directory := dir; printed := [] |}
          | inr _ =>
              match Activate name dir with
              | (Some err, dir') =>
                  Some {| returned := Some (ErrCannotActivate name err);
                          command := cmd; directory := dir'; printed := [] |}
              | (None, dir') =>
                  Some {| returned := None; command := cmd; directory := dir';
                          printed :=
                            ["Activated " +:+ fmt_q name +:+ "."
                             +:+ String "010" ""] |}
              end
          end
      end
  end.

End Activate.

End Configurations.

(** * Concrete collaborators, used to run the definitions *)

Module Examples.

Import Scoring.

(** A registry client over a finite store of artifacts. *)
Definition storeClient (store : gmap string Artifact) : artifactClient string :=
  {| GetArtifact := fun name _ =>
       match store !! name with
       | Some a => inr a
       | None => inl (ErrStatus CodeNotFound name)
       end;
     SetArtifact := fun _ => None |}.

(** A client whose every call fails with the given status. *)
Definition failingClient (c : Code) : artifactClient string :=
  {| GetArtifact := fun name _ => inl (ErrStatus c name);
     SetArtifact := fun _ => Some (ErrStatus c "set") |}.

(** Packages with a fixed decoded definition.  An artifact decodes to the
    map binding ["score"] to the number of bytes of its contents; the
    expression ["score"] reads that binding, an expression that is a
    key of the map reads it, ["sum"] adds the integer bindings, and any
    other expression fails. *)
Definition sumValues (m : gmap string value) : Z :=
  map_fold (fun _ v acc => match v with VInt64 z => acc + z | _ => acc end) 0 m.

Definition fixedPackages (definition : ScoreDefinition) : Packages :=
  {| names_Artifact := string;
     names_ParseArtifact := fun s => inr s;
     patterns_SubstituteReferenceEntity := fun pattern r =>
       if String.eqb pattern "" then inl (ErrExternal "empty pattern")
       else inr (rn_string r +:+ "/artifacts/" +:+ pattern);
     patterns_ResourceUpdateThreshold := 1000000000;
     patch_MimeTypeForKind := fun kind => "application/octet-stream;type=" +:+ kind;
     proto_Unmarshal := fun _ => inr definition;
     proto_Marshal := fun _ => inr [];
     getMap := fun contents _ =>
       inr {[ "score" := VInt64 (Z.of_nat (length contents)) ]};
     evaluateScoreExpression := fun expr m =>
       if String.eqb expr "sum" then inr (VInt64 (sumValues m))
       else match m !! expr with
            | Some v => inr v
            | None => inl (ErrExternal ("undefined: " +:+ expr))
            end;
     int32_unrepresentable := fun _ => 0 |}.

Definition integerDefinition (lo hi : Z) (ts : list NumberThreshold)
  (formula : Formula) : ScoreDefinition :=
  {| def_id := "lint-error"; def_display_name := "Lint errors";
     def_description := ""; def_uri := ""; def_uri_display_name := "";
     def_type := TypeInteger {| min_value := lo; max_value := hi;
                                integer_thresholds := ts |};
     def_formula := formula |}.

Definition booleanDefinition (ts : list BooleanThreshold) : ScoreDefinition :=
  {| def_id := "has-owner"; def_display_name := "Has owner";
     def_description := ""; def_uri := ""; def_uri_display_name := "";
     def_type := TypeBoolean {| display_true := ""; display_false := "";
                                boolean_thresholds := ts |};
     def_formula := FormulaUnset |}.

Definition threshold (sev : Severity) (lo hi : Z) : NumberThreshold :=
  {| nt_severity := sev; nt_range_min := lo; nt_range_max := hi |}.


(** A spec, its lint artifact, and score definitions over it. *)
Definition specResource : ResourceName :=
  {| rn_string := "projects/p/locations/global/apis/a/versions/v/specs/s";
     rn_project := "projects/p" |}.

Definition lintArtifact (t : Z) : Artifact :=
  {| art_name := "projects/p/locations/global/apis/a/versions/v/specs/s/artifacts/lint";
     art_mime_type := "application/json";
     art_contents := [Byte.x7b; Byte.x7d; Byte.x0a];
     art_update_time := t |}.

Definition scoreArtifactAt (t : Z) : Artifact :=
  {| art_name := "projects/p/locations/global/apis/a/versions/v/specs/s/artifacts/score-lint-error";
     art_mime_type := "application/octet-stream;type=Score";
     art_contents := [];
     art_update_time := t |}.

Definition definitionArtifact (t : Z) : Artifact :=
  {| art_name := "projects/p/locations/global/artifacts/lint-error";
     art_mime_type := "application/octet-stream;type=ScoreDefinition";
     art_contents := [];
     art_update_time := t |}.

Definition lintFormula (expression referenceId : string) : ScoreFormula :=
  {| artifact_pattern := "lint"; score_expression := expression;
     reference_id := referenceId |}.

Definition rollup (fs : list ScoreFormula) : RollUpFormula :=
  {| score_formulas := fs; rollup_expression := "sum" |}.

(** A store holding the lint artifact only, and one that also holds a
    score computed at time [t]. *)
Definition lintStore (tLint : Z) : gmap string Artifact :=
  {[ art_name (lintArtifact tLint) := lintArtifact tLint ]}.

Definition scoredStore (tLint tScore : Z) : gmap string Artifact :=
  <[ art_name (scoreArtifactAt tScore) := scoreArtifactAt tScore ]>
    (lintStore tLint).

End Examples.

Module PatchExamples.

Import Patch.

(** A registry with no versions and no deployments, and whose listed
    artifacts decode by mime type: empty contents do not decode, the
    octet-stream type decodes to the generic kind, any other type to the
    kind it names. *)
Definition decode (message : rpc_Artifact) : error + Document bytes :=
  match artifact_Contents message with
  | [] => inl (ErrExternal "unmarshal")
  | _ =>
      inr {| doc_Header :=
               {| ApiVersion := RegistryV1;
                  Kind := if String.eqb (artifact_MimeType message)
                               "application/octet-stream"
                          then "Artifact" else artifact_MimeType message;
                  hd_Metadata :=
                    {| md_Name := artifact_Name message;
                       md_Parent := "apis/a";
                       md_Labels := ∅; md_Annotations := ∅ |} |};
             doc_Data := artifact_Contents message |}
  end.

Definition listedRegistry (artifacts : list rpc_Artifact) : Registry :=
  {| rpc_ApiVersion := string;
     rpc_ApiDeployment := string;
     VersionData := unit;
     DeploymentData := unit;
     ArtifactData := bytes;
     registry_ListVersions := fun _ _ => ([], None);
     registry_ListDeployments := fun _ _ => ([], None);
     registry_ListArtifacts := fun _ _ _ => (artifacts, None);
     newApiVersion := fun _ _ => (inl (ErrExternal "no versions"), []);
     newApiDeployment := fun _ _ => (inl (ErrExternal "no deployments"), []);
     newArtifact := decode |}.

Definition childArtifact (name mime : string) (contents : bytes) : rpc_Artifact :=
  {| artifact_Name := name; artifact_MimeType := mime;
     artifact_Contents := contents |}.

Definition threeArtifacts : list rpc_Artifact :=
  [ childArtifact "lifecycle" "Lifecycle" [Byte.x01];
    childArtifact "blob" "application/octet-stream" [Byte.x02];
    childArtifact "broken" "Lifecycle" [] ].

Definition petstore : Names.Api :=
  {| Names.api_ProjectID := "p"; Names.ApiID := "petstore" |}.

Definition petstoreMessage (version deployment : string) : rpc_Api :=
  {| Name := "projects/p/locations/global/apis/petstore";
     DisplayName := "Petstore"; Description := ""; Availability := "";
     RecommendedVersion := version; RecommendedDeployment := deployment;
     Labels := ∅; Annotations := ∅ |}.

End PatchExamples.

Module ControllerExamples.

Import Controller.

(** Three petstore specs, none of them with a vocabulary artifact yet. *)
Definition specCandidate (version : string) : Candidate :=
  {| cand_name :=
       "projects/controller-test/locations/global/apis/petstore/versions/"
       +:+ version +:+ "/specs/openapi.yaml/artifacts/vocabulary";
     cand_update_time := None;
     cand_dependencies := [[10]];
     cand_command :=
       "registry compute vocabulary projects/controller-test/locations/global/apis/petstore/versions/"
       +:+ version +:+ "/specs/openapi.yaml" |}.

Definition petstoreEngine : PatternEngine :=
  {| expandCandidates := fun _ _ =>
       Some [specCandidate "1.1.0"; specCandidate "1.0.0"; specCandidate "1.0.1"];
     slack := 1000000000 |}.

Definition vocabularyManifest : Manifest :=
  {| Id := "controller-test";
     GeneratedResources :=
       [ {| Pattern := "apis/-/versions/-/specs/-/artifacts/vocabulary";
            Filter := "";
            Dependencies := [ {| dep_Pattern := "$resource.spec"; dep_Filter := "" |} ];
            Action_ := "registry compute vocabulary $resource.spec";
            Receipt := false |} ] |}.

End ControllerExamples.

Module MoreExamples.

(** Packages that reject an artifact name with a space (with the status
    NotFound) and do not decode empty contents. *)
Definition strictPackages (definition : Scoring.ScoreDefinition)
  : Scoring.Packages :=
  {| Scoring.names_Artifact := string;
     Scoring.names_ParseArtifact := fun s =>
       if strings_Contains s " "
       then inl (Scoring.ErrStatus Scoring.CodeNotFound s) else inr s;
     Scoring.patterns_SubstituteReferenceEntity := fun pattern r =>
       inr (Scoring.rn_string r +:+ "/artifacts/" +:+ pattern);
     Scoring.patterns_ResourceUpdateThreshold := 1000000000;
     Scoring.patch_MimeTypeForKind := fun kind =>
       "application/octet-stream;type=" +:+ kind;
     Scoring.proto_Unmarshal := fun contents =>
       match contents with
       | [] => inl (Scoring.ErrExternal "unmarshal")
       | _ => inr definition
       end;
     Scoring.proto_Marshal := fun _ => inr [];
     Scoring.getMap := fun contents _ =>
       inr {[ "score" := Scoring.VInt64 (Z.of_nat (length contents)) ]};
     Scoring.evaluateScoreExpression := fun expr m =>
       match m !! expr with
       | Some v => inr v
       | None => inl (Scoring.ErrExternal ("undefined: " +:+ expr))
       end;
     Scoring.int32_unrepresentable := fun _ => 0 |}.

Definition spacedResource : Scoring.ResourceName :=
  {| Scoring.rn_string := "projects/p/locations/global/apis/my api";
     Scoring.rn_project := "projects/p" |}.

Definition encodedDefinition (name : string) (contents : bytes)
  : Scoring.Artifact :=
  {| Scoring.art_name := name;
     Scoring.art_mime_type := "application/octet-stream;type=ScoreDefinition";
     Scoring.art_contents := contents;
     Scoring.art_update_time := 10 |}.

(** A listing of three definition artifacts, the second one empty. *)
Definition listedDefinitions : list Scoring.Artifact :=
  [ encodedDefinition "projects/p/locations/global/artifacts/lint-error" [Byte.x01];
    encodedDefinition "projects/p/locations/global/artifacts/empty" [];
    encodedDefinition "projects/p/locations/global/artifacts/lint-warning" [Byte.x02] ].

Definition definitionListing : Scoring.artifactListing string :=
  {| Scoring.ListArtifacts := fun _ _ _ => (listedDefinitions, None);
     Scoring.fmt_q := fun s => String "034" (s +:+ String "034" "") |}.

(** A registry that counts its successful writes, refuses the deployment
    named ["broken"], and decodes every YAML input to a fixed document. *)
Definition countingApplier (registry : Patch.Registry)
  (decoded : Patch.error + Patch.Document Patch.ApiData)
  : @Patch.Applier registry :=
  {| Patch.RegistryState := nat;
     Patch.yaml_Unmarshal := fun _ => decoded;
     Patch.client_UpdateApi := fun _ n => (None, S n);
     Patch.applyApiVersionPatch := fun _ _ n => (None, S n);
     Patch.applyApiDeploymentPatch := fun patch _ n =>
       if String.eqb (Patch.md_Name (Patch.hd_Metadata (Patch.doc_Header patch)))
            "broken"
       then (Some (Patch.ErrExternal "deployment"), n) else (None, S n);
     Patch.applyArtifactPatch := fun _ _ n => (None, S n) |}.

Definition noRegistry : Patch.Registry := PatchExamples.listedRegistry [].

(** A registry whose artifact listing streams one artifact that does not
    decode and then ends with an error. *)
Definition unavailableRegistry : Patch.Registry :=
  {| Patch.rpc_ApiVersion := string;
     Patch.rpc_ApiDeployment := string;
     Patch.VersionData := unit;
     Patch.DeploymentData := unit;
     Patch.ArtifactData := bytes;
     Patch.registry_ListVersions := fun _ _ => ([], None);
     Patch.registry_ListDeployments := fun _ _ => ([], None);
     Patch.registry_ListArtifacts := fun _ _ _ =>
       ([PatchExamples.childArtifact "broken" "Lifecycle" []],
        Some (Patch.ErrExternal "unavailable"));
     Patch.newApiVersion := fun _ _ => (inl (Patch.ErrExternal "no versions"), []);
     Patch.newApiDeployment := fun _ _ =>
       (inl (Patch.ErrExternal "no deployments"), []);
     Patch.newArtifact := PatchExamples.decode |}.

(** A registry that lists the version ["1.0.0"] under every API, and has
    no builder for it. *)
Definition oneVersionRegistry : Patch.Registry :=
  {| Patch.rpc_ApiVersion := string;
     Patch.rpc_ApiDeployment := string;
     Patch.VersionData := unit;
     Patch.DeploymentData := unit;
     Patch.ArtifactData := bytes;
     Patch.registry_ListVersions := fun _ _ => (["1.0.0"], None);
     Patch.registry_ListDeployments := fun _ _ => ([], None);
     Patch.registry_ListArtifacts := fun _ _ _ => ([], None);
     Patch.newApiVersion := fun _ _ => (inl (Patch.ErrExternal "no versions"), []);
     Patch.newApiDeployment := fun _ _ =>
       (inl (Patch.ErrExternal "no deployments"), []);
     Patch.newArtifact := PatchExamples.decode |}.

Definition child {D : Type} (name : string) (data : D) : Patch.Document D :=
  {| Patch.doc_Header :=
       {| Patch.ApiVersion := ""; Patch.Kind := "";
          Patch.hd_Metadata :=
            {| Patch.md_Name := name; Patch.md_Parent := "";
               Patch.md_Labels := ∅; Patch.md_Annotations := ∅ |} |};
     Patch.doc_Data := data |}.

(** A document with one version, two deployments (the first is refused)
    and one artifact. *)
Definition nestedDocument : Patch.Document (@Patch.ApiData noRegistry) :=
  {| Patch.doc_Header :=
       {| Patch.ApiVersion := Patch.RegistryV1; Patch.Kind := "API";
          Patch.hd_Metadata :=
            {| Patch.md_Name := "petstore"; Patch.md_Parent := "";
               Patch.md_Labels := ∅; Patch.md_Annotations := ∅ |} |};
     Patch.doc_Data :=
       {| Patch.data_DisplayName := "Petstore";
          Patch.data_Description := "";
          Patch.data_Availability := "";
          Patch.data_RecommendedVersion := "1.0.0";
          Patch.data_RecommendedDeployment := "";
          Patch.ApiVersions := Some [child (D := @Patch.VersionData noRegistry) "1.0.0" tt];
          Patch.ApiDeployments :=
            Some [child (D := @Patch.DeploymentData noRegistry) "broken" tt;
                  child (D := @Patch.DeploymentData noRegistry) "prod" tt];
          Patch.Artifacts :=
            Some [child (D := @Patch.ArtifactData noRegistry) "lifecycle" [Byte.x01]] |} |}.

(** A configuration directory as the name of the active configuration;
    the empty name is invalid and only ["staging"] can be read. *)
Definition oneConfig : Configurations.Config :=
  {| Configurations.ConfigDir := string;
     Configurations.Configuration := unit;
     Configurations.ValidateName := fun name =>
       if String.eqb name "" then Some (Configurations.ErrConfig "invalid name")
       else None;
     Configurations.Read := fun name _ =>
       if String.eqb name "staging" then inr tt
       else inl (Configurations.ErrConfig "no such configuration");
     Configurations.Activate := fun name _ => (None, name);
     Configurations.fmt_q := fun s => String "034" (s +:+ String "034" "") |}.

(** The document newApi builds, without children, for the petstore API
    whose recommended version is its own version 1.0.0. *)
Definition exportedPetstore (registry : Patch.Registry)
  : Patch.Document (@Patch.ApiData registry) :=
  {| Patch.doc_Header :=
       {| Patch.ApiVersion := Patch.RegistryV1; Patch.Kind := "API";
          Patch.hd_Metadata :=
            {| Patch.md_Name := "petstore"; Patch.md_Parent := "";
               Patch.md_Labels := ∅; Patch.md_Annotations := ∅ |} |};
     Patch.doc_Data :=
       {| Patch.data_DisplayName := "Petstore";
          Patch.data_Description := "";
          Patch.data_Availability := "";
          Patch.data_RecommendedVersion := "1.0.0";
          Patch.data_RecommendedDeployment := "";
          Patch.ApiVersions := None;
          Patch.ApiDeployments := None;
          Patch.Artifacts := None |} |}.

Definition percentDefinition (ts : list Scoring.NumberThreshold)
  : Scoring.ScoreDefinition :=
  {| Scoring.def_id := "coverage"; Scoring.def_display_name := "Coverage";
     Scoring.def_description := ""; Scoring.def_uri := "";
     Scoring.def_uri_display_name := "";
     Scoring.def_type := Scoring.TypePercent {| Scoring.percent_thresholds := ts |};
     Scoring.def_formula := Scoring.FormulaUnset |}.

End MoreExamples.

(** * Properties of the scoring engine *)

Module ScoringSpec.

Import Scoring.

(** ** Conversions *)

Lemma int32_in_range v : in_int32 (int32 v).
Proof.
  unfold in_int32, int32.
  pose proof (Z.mod_pos_bound (v + 2 ^ 31) (2 ^ 32) ltac:(lia)). lia.
Qed.



Lemma in_int32b_spec v : in_int32b v = true <-> in_int32 v.
Proof. unfold in_int32b, in_int32. lia. Qed.

Lemma float_den_pos e : 0 < float_den e.
Proof. unfold float_den. apply Z.pow_pos_nonneg; lia. Qed.


(** ** Threshold loops *)

Lemma integerSeverity_first v pre t post sev :
  Forall (fun t' => ~ in_range v t') pre -> in_range v t ->
  integerSeverity v (pre ++ t :: post) sev = nt_severity t.
Proof.
  unfold in_range. induction 1 as [| t' pre Ht' _ IH]; intros Ht; simpl.
  - replace ((nt_range_min t <=? v) && (v <=? nt_range_max t)) with true
      by (symmetry; apply andb_true_iff; lia).
    reflexivity.
  - replace ((nt_range_min t' <=? v) && (v <=? nt_range_max t')) with false
      by (symmetry; apply andb_false_iff; lia).
    auto.
Qed.

Lemma integerSeverity_none v ts sev :
  Forall (fun t' => ~ in_range v t') ts -> integerSeverity v ts sev = sev.
Proof.
  unfold in_range. induction 1 as [| t' ts Ht' _ IH]; simpl; [reflexivity |].
  replace ((nt_range_min t' <=? v) && (v <=? nt_range_max t')) with false
    by (symmetry; apply andb_false_iff; lia).
  exact IH.
Qed.

(** Either some threshold is the first to contain [v], or none does. *)
Lemma first_in_range v (ts : list NumberThreshold) :
  (exists pre t post, ts = pre ++ t :: post /\
     Forall (fun t' => ~ in_range v t') pre /\ in_range v t)
  \/ Forall (fun t' => ~ in_range v t') ts.
Proof.
  induction ts as [| t ts IH]; [right; constructor |].
  destruct (decide (nt_range_min t <= v <= nt_range_max t)) as [Hin | Hout].
  - left. exists [], t, ts. repeat split; [constructor | apply Hin ..].
  - destruct IH as [(pre & t0 & post & -> & Hpre & Hin) | Hnone].
    + left. exists (t :: pre), t0, post. repeat split; try apply Hin.
      constructor; assumption.
    + right. constructor; assumption.
Qed.

(** The boolean loop keeps the severity of the last matching threshold. *)
Lemma booleanSeverity_last b pre t post sev :
  bt_value t = b -> Forall (fun t' => bt_value t' <> b) post ->
  booleanSeverity b (pre ++ t :: post) sev = bt_severity t.
Proof.
  intros Ht Hpost. revert sev.
  induction pre as [| t' pre IH]; intros sev; simpl.
  - rewrite Ht, Bool.eqb_reflx. clear Ht.
    generalize (bt_severity t) as s.
    induction Hpost as [| t' post Ht' _ IH]; intros s; simpl; [reflexivity |].
    destruct (Bool.eqb (bt_value t') b) eqn:E; [| apply IH].
    apply Bool.eqb_prop in E. contradiction.
  - apply IH.
Qed.

Lemma booleanSeverity_cases b (ts : list BooleanThreshold) sev :
  (exists pre t post,
     ts = pre ++ t :: post /\ bt_value t = b /\
     Forall (fun t' => bt_value t' <> b) post /\
     booleanSeverity b ts sev = bt_severity t)
  \/ (Forall (fun t' => bt_value t' <> b) ts /\ booleanSeverity b ts sev = sev).
Proof.
  revert sev. induction ts as [| t ts IH]; intros sev.
  - right. split; [constructor | reflexivity].
  - simpl. destruct (IH (if Bool.eqb (bt_value t) b then bt_severity t else sev))
      as [(pre & t0 & post & -> & Ht0 & Hpost & Hsev) | [Hnone Hsev]].
    + left. exists (t :: pre), t0, post. repeat split; assumption.
    + destruct (Bool.eqb (bt_value t) b) eqn:E.
      * left. exists [], t, ts. apply Bool.eqb_prop in E.
        repeat split; assumption.
      * right. split; [| exact Hsev]. constructor; [| exact Hnone].
        intros Heq. rewrite Heq, Bool.eqb_reflx in E. discriminate.
Qed.

Section Properties.

Context {pk : Packages} {client : artifactClient names_Artifact}.

(** For a boolean definition and a boolean result, the severity of the
    Score is the one of the last threshold with that value, and the
    default when there is none. *)
Lemma processScoreType_boolean_severity definition b boolVal project :
  def_type definition = TypeBoolean b ->
  exists score,
    processScoreType definition (VBool boolVal) project = inr score /\
    ((exists pre t post,
        boolean_thresholds b = pre ++ t :: post /\ bt_value t = boolVal /\
        Forall (fun t' => bt_value t' <> boolVal) post /\
        score_severity score = bt_severity t)
     \/ (Forall (fun t' => bt_value t' <> boolVal) (boolean_thresholds b) /\
         score_severity score = SEVERITY_UNSPECIFIED)).
Proof.
  intros Hty. unfold processScoreType. rewrite Hty.
  eexists. split; [reflexivity |]. simpl.
  apply booleanSeverity_cases.
Qed.

(** C5. For an integer-typed definition and an int64 or float64 result,
    processScoreType returns a Score holding the coerced value [n]; its
    severity is ALERT when [n] is outside [min, max], and otherwise the
    severity of the first threshold, in list order, whose range contains
    [n], or the default (unspecified) severity when no range contains it. *)
Theorem processScoreType_integer_severity definition i scoreValue project :
  def_type definition = TypeInteger i ->
  (exists z, scoreValue = VInt64 z) \/ (exists f, scoreValue = VFloat64 f) ->
  exists n score,
    integerOfValue scoreValue = inr n /\
    processScoreType definition scoreValue project = inr score /\
    score_value score = IntegerValue n (min_value i) (max_value i) /\
    (n < min_value i \/ max_value i < n -> score_severity score = ALERT) /\
    (min_value i <= n <= max_value i ->
       (exists pre t post,
          integer_thresholds i = pre ++ t :: post /\
          Forall (fun t' => ~ in_range n t') pre /\ in_range n t /\
          score_severity score = nt_severity t)
       \/ (Forall (fun t' => ~ in_range n t') (integer_thresholds i) /\
           score_severity score = SEVERITY_UNSPECIFIED)).
Proof.
  intros Hty Hv.
  assert (exists n, integerOfValue scoreValue = inr n) as [n Hn].
  { destruct Hv as [[z ->] | [f ->]]; simpl; eauto. }
  exists n. unfold processScoreType. rewrite Hty, Hn.
  destruct ((n <? min_value i) || (n >? max_value i)) eqn:Hout.
  - eexists. split; [reflexivity |]. split; [reflexivity |].
    split; [reflexivity |]. split; [reflexivity |].
    intros Hin. apply orb_true_iff in Hout. lia.
  - eexists. split; [reflexivity |]. split; [reflexivity |].
    split; [reflexivity |]. apply orb_false_iff in Hout.
    split; [intros; lia |]. intros _. simpl.
    destruct (first_in_range n (integer_thresholds i))
      as [(pre & t & post & Hts & Hpre & Hin) | Hnone].
    + left. exists pre, t, post. repeat split; try assumption; try apply Hin.
      rewrite Hts. apply integerSeverity_first; assumption.
    + right. split; [assumption |]. apply integerSeverity_none; assumption.
Qed.

Lemma integerOfValue_in_range scoreValue n :
  integerOfValue scoreValue = inr n -> in_int32 n.
Proof.
  destruct scoreValue as [z | f | | |]; simpl; try discriminate.
  - intros [= <-]. apply int32_in_range.
  - intros [= <-]. unfold int32_of_float64.
    destruct f as [| | | s m e]; try apply int32_in_range.
    + unfold in_int32. lia.
    + destruct (in_int32b (float64_trunc s m e)) eqn:E;
        [apply in_int32b_spec; exact E | apply int32_in_range].
Qed.



End Properties.

(** C5, on a definition with range [0, 100] and three thresholds, for the
    result 74. *)
Lemma processScoreType_integer_severity_witness :
  let ts := [Examples.threshold ALERT 0 30; Examples.threshold WARNING 31 60;
             Examples.threshold OK 61 100] in
  let definition := Examples.integerDefinition 0 100 ts FormulaUnset in
  let i := {| min_value := 0; max_value := 100; integer_thresholds := ts |} in
  let pk := Examples.fixedPackages definition in
  exists n score,
    integerOfValue (VInt64 74) = inr n /\
    processScoreType definition (VInt64 74) "projects/p/locations/global"
      = inr score /\
    score_value score = IntegerValue n (min_value i) (max_value i) /\
    (n < min_value i \/ max_value i < n -> score_severity score = ALERT) /\
    (min_value i <= n <= max_value i ->
       (exists pre t post,
          integer_thresholds i = pre ++ t :: post /\
          Forall (fun t' => ~ in_range n t') pre /\ in_range n t /\
          score_severity score = nt_severity t)
       \/ (Forall (fun t' => ~ in_range n t') (integer_thresholds i) /\
           score_severity score = SEVERITY_UNSPECIFIED)).
Proof.
  intros ts definition i pk.
  apply (processScoreType_integer_severity (pk := pk) definition i (VInt64 74)
           "projects/p/locations/global").
  - reflexivity.
  - left. exists 74. reflexivity.
Defined.



(** C4 (the code at the failing input).  With two thresholds for [true],
    WARNING first and ALERT second, the result [true] gets the severity
    of the second threshold: the boolean loop does not stop at its first
    match. *)
Theorem processScoreType_boolean_last_match :
  let ts := [ {| bt_severity := WARNING; bt_value := true |};
              {| bt_severity := ALERT; bt_value := true |} ] in
  let definition := Examples.booleanDefinition ts in
  let pk := Examples.fixedPackages definition in
  exists score,
    processScoreType definition (VBool true) "projects/p/locations/global"
      = inr score /\
    score_value score = BooleanValue true "true" /\
    score_severity score = ALERT /\
    (bt_severity <$> head (filter (fun t => bt_value t = true) ts)) = Some WARNING.
Proof.
  intros ts definition pk. eexists. repeat split.
Qed.

(** ** Formulas and the staleness decision *)

Lemma is_empty_true s : is_empty s = true <-> s = "".
Proof. destruct s; simpl; split; congruence. Qed.

Lemma is_empty_false s : is_empty s = false <-> s <> "".
Proof. destruct s; simpl; split; congruence. Qed.

Lemma Code_is_NotFound_spec c : Code_is_NotFound c = true <-> c = CodeNotFound.
Proof. destruct c; simpl; split; congruence. Qed.

#[local] Instance Code_eq_dec : EqDecision Code.
Proof. solve_decision. Defined.

Section FormulaProperties.

Context {pk : Packages} {client : artifactClient names_Artifact}.

Variables (resource : ResourceName) (scoreArtifact : option Artifact)
  (takeAction : bool).

Local Abbreviation evaluate f := (processScoreFormula f resource scoreArtifact takeAction).
Local Abbreviation passing := (passes resource scoreArtifact takeAction).
Local Abbreviation store := (storeResult resource scoreArtifact takeAction).

(** A formula with a rejected reference id stops the loop with an error,
    unless an earlier formula already did. *)
Lemma rollUpLoop_rejected fs f m u :
  f ∈ fs ->
  reference_id f = "" \/ strings_Contains (reference_id f) "-" = true ->
  exists e, rollUpLoop fs resource scoreArtifact takeAction m u = inl e.
Proof.
  intros Hin Hbad. revert m u.
  induction Hin as [f fs | f g fs _ IH]; intros m u; simpl.
  - destruct (sr_err (evaluate f)); [eauto |].
    destruct Hbad as [-> | Hdash]; simpl; [eauto |].
    destruct (is_empty (reference_id f)); [eauto |].
    rewrite Hdash. eauto.
  - destruct (sr_err (evaluate g)); [eauto |].
    destruct (is_empty (reference_id g)); [eauto |].
    destruct (strings_Contains (reference_id g) "-"); [eauto |].
    apply IH. exact Hbad.
Qed.

(** While the formulas pass, the loop stores each result and goes on. *)
Lemma rollUpLoop_app pre rest m u :
  Forall passing pre ->
  rollUpLoop (pre ++ rest) resource scoreArtifact takeAction m u
  = rollUpLoop rest resource scoreArtifact takeAction (foldl store m pre)
      (u || existsb (fun f => sr_needsUpdate (evaluate f)) pre).
Proof.
  intros Hpre. revert m u.
  induction Hpre as [| f pre (Herr & Hne & Hdash) _ IH]; intros m u; simpl.
  - rewrite orb_false_r. reflexivity.
  - rewrite Herr. apply is_empty_false in Hne. rewrite Hne, Hdash.
    rewrite IH, orb_assoc. reflexivity.
Qed.

Lemma rollUpLoop_passing fs m u :
  Forall passing fs ->
  rollUpLoop fs resource scoreArtifact takeAction m u
  = inr (foldl store m fs,
         u || existsb (fun f => sr_needsUpdate (evaluate f)) fs).
Proof.
  intros Hfs. rewrite <- (app_nil_r fs) at 1.
  rewrite rollUpLoop_app by assumption. reflexivity.
Qed.

Lemma rollUpLoop_first_failure pre f post m u e :
  Forall passing pre -> sr_err (evaluate f) = Some e ->
  rollUpLoop (pre ++ f :: post) resource scoreArtifact takeAction m u
  = inl (ErrRollupScoreFormula e).
Proof.
  intros Hpre Herr. rewrite rollUpLoop_app by assumption.
  simpl. rewrite Herr. reflexivity.
Qed.

(** What the stores leave in the map: the result of the last formula
    with a given reference id. *)
Lemma foldl_store_other fs m k :
  k ∉ reference_id <$> fs -> foldl store m fs !! k = m !! k.
Proof.
  revert m. induction fs as [| f fs IH]; intros m Hk; simpl; [reflexivity |].
  rewrite fmap_cons in Hk. apply not_elem_of_cons in Hk as [Hne Hk].
  rewrite IH by assumption. unfold storeResult.
  apply lookup_insert_ne. congruence.
Qed.

Lemma foldl_store_lookup fs m f :
  NoDup (reference_id <$> fs) -> f ∈ fs ->
  foldl store m fs !! reference_id f = Some (sr_value (evaluate f)).
Proof.
  revert m. induction fs as [| g fs IH]; intros m Hnd Hin; simpl.
  - inversion Hin.
  - rewrite fmap_cons in Hnd. apply NoDup_cons in Hnd as [Hg Hnd].
    apply elem_of_cons in Hin as [-> | Hin].
    + rewrite foldl_store_other by assumption.
      unfold storeResult. apply lookup_insert_eq.
    + apply IH; assumption.
Qed.

Lemma foldl_store_bound fs m f :
  f ∈ fs -> is_Some (foldl store m fs !! reference_id f).
Proof.
  revert m f. induction fs as [| g fs IH]; intros m f Hin; simpl.
  - inversion Hin.
  - apply elem_of_cons in Hin as [-> | Hin]; [| apply IH; assumption].
    destruct (decide (reference_id g ∈ reference_id <$> fs)) as [Hlater | Hlast].
    + apply list_elem_of_fmap in Hlater as (h & Heq & Hh).
      rewrite Heq. apply IH. assumption.
    + rewrite foldl_store_other by assumption.
      unfold storeResult. rewrite lookup_insert_eq. eauto.
Qed.

(** C6. processRollUpFormula fails, with no value, whenever some inner
    formula has an empty reference id or one containing '-'.  When every
    inner formula evaluates and has a valid reference id, the loop stores
    each result in the rollup map under the reference id of its formula,
    in list order, and that map is the one the rollup expression is
    evaluated over. *)
Theorem processRollUpFormula_reference_ids formula :
  (forall f, f ∈ score_formulas formula ->
     reference_id f = "" \/ strings_Contains (reference_id f) "-" = true ->
     exists e,
       processRollUpFormula formula resource scoreArtifact takeAction
       = failed e) /\
  (Forall passing (score_formulas formula) ->
   let rollUpMap := foldl store ∅ (score_formulas formula) in
   let updateRequired :=
     takeAction
     || existsb (fun f => sr_needsUpdate (evaluate f)) (score_formulas formula) in
   rollUpLoop (score_formulas formula) resource scoreArtifact takeAction
     ∅ takeAction = inr (rollUpMap, updateRequired) /\
   (forall f, f ∈ score_formulas formula ->
      is_Some (rollUpMap !! reference_id f)) /\
   (NoDup (reference_id <$> score_formulas formula) ->
    forall f, f ∈ score_formulas formula ->
      rollUpMap !! reference_id f = Some (sr_value (evaluate f))) /\
   (score_formulas formula <> [] -> rollup_expression formula <> "" ->
    processRollUpFormula formula resource scoreArtifact takeAction
    = if updateRequired then
        match evaluateScoreExpression (rollup_expression formula) rollUpMap with
        | inl e => failed e
        | inr v => {| sr_value := v; sr_needsUpdate := true; sr_err := None |}
        end
      else {| sr_value := VNil; sr_needsUpdate := false; sr_err := None |})).
Proof.
  split.
  - intros f Hin Hbad. unfold processRollUpFormula.
    destruct (length (score_formulas formula) =? 0)%nat; [eauto |].
    destruct (is_empty (rollup_expression formula)); [eauto |].
    destruct (rollUpLoop_rejected _ f ∅ takeAction Hin Hbad) as [e ->].
    eauto.
  - intros Hpass rollUpMap updateRequired.
    pose proof (rollUpLoop_passing _ ∅ takeAction Hpass) as Hloop.
    split; [exact Hloop |]. split; [| split].
    + intros f Hin. apply foldl_store_bound. assumption.
    + intros Hnd f Hin. apply foldl_store_lookup; assumption.
    + intros Hfs Hexpr. unfold processRollUpFormula.
      destruct (score_formulas formula) as [| f0 fs] eqn:Efs; [congruence |].
      simpl length. simpl Nat.eqb. cbv iota.
      apply is_empty_false in Hexpr. rewrite Hexpr.
      rewrite Hloop. reflexivity.
Qed.

End FormulaProperties.

(** ** CalculateScore *)

Section CalculateScoreProperties.

Context {pk : Packages} {client : artifactClient names_Artifact}.

Lemma decideTakeAction_absent name e defArtifact :
  status_Code e = CodeNotFound ->
  decideTakeAction name (inl e) defArtifact = inr (None, true).
Proof. intros He. unfold decideTakeAction. rewrite He. reflexivity. Qed.

Lemma decideTakeAction_abort name e defArtifact :
  status_Code e <> CodeNotFound ->
  decideTakeAction name (inl e) defArtifact = inl (ErrFetchArtifact name e).
Proof.
  intros He. unfold decideTakeAction.
  destruct (Code_is_NotFound (status_Code e)) eqn:E; [| reflexivity].
  apply Code_is_NotFound_spec in E. contradiction.
Qed.

Lemma decideTakeAction_present name a defArtifact :
  decideTakeAction name (inr a) defArtifact
  = inr (Some a,
         art_update_time a
         <? art_update_time defArtifact + patterns_ResourceUpdateThreshold).
Proof.
  unfold decideTakeAction, Add_After. simpl.
  destruct (art_update_time a
            <? art_update_time defArtifact + patterns_ResourceUpdateThreshold);
    reflexivity.
Qed.

(** C2. In CalculateScore the fetch of the existing score artifact aborts
    the operation exactly when it fails with a status other than NotFound;
    otherwise [takeAction] is true if and only if the score artifact is
    absent (NotFound) or the update time of the definition artifact plus
    the threshold is after the update time of the score artifact. *)
Theorem CalculateScore_takeAction defArtifact resource dryRun definition :
  proto_Unmarshal (art_contents defArtifact) = inr definition ->
  let artifactName :=
    rn_string resource +:+ "/artifacts/" +:+ scoreID (def_id definition) in
  let fetched := getArtifact artifactName false in
  ((exists e, decideTakeAction artifactName fetched defArtifact = inl e)
   <-> (exists e, fetched = inl e /\ status_Code e <> CodeNotFound)) /\
  (forall scoreArtifact takeAction,
     decideTakeAction artifactName fetched defArtifact
     = inr (scoreArtifact, takeAction) ->
     scoreArtifact = match fetched with inr a => Some a | inl _ => None end /\
     (takeAction = true <->
        (exists e, fetched = inl e /\ status_Code e = CodeNotFound)
        \/ (exists a, fetched = inr a /\
              art_update_time a
              < art_update_time defArtifact + patterns_ResourceUpdateThreshold)))
  /\
  (forall e, fetched = inl e -> status_Code e <> CodeNotFound ->
     CalculateScore defArtifact resource dryRun
     = (Some (ErrFetchArtifact artifactName e), [])).
Proof.
  intros Hdef artifactName fetched. split; [| split].
  - destruct fetched as [e | a].
    + destruct (decide (status_Code e = CodeNotFound)) as [He | He].
      * rewrite decideTakeAction_absent by assumption.
        split; intros [e' H]; [discriminate | ].
        destruct H as [[= <-] H]. contradiction.
      * rewrite decideTakeAction_abort by assumption. split; eauto.
    + rewrite decideTakeAction_present.
      split; intros [e' H]; [discriminate | destruct H; discriminate].
  - intros sa ta. destruct fetched as [e | a].
    + destruct (decide (status_Code e = CodeNotFound)) as [He | He].
      * rewrite decideTakeAction_absent by assumption. intros [= <- <-].
        split; [reflexivity |]. split; [eauto | reflexivity].
      * rewrite decideTakeAction_abort by assumption. discriminate.
    + rewrite decideTakeAction_present. intros [= <- <-].
      split; [reflexivity |]. rewrite Z.ltb_lt. split.
      * intros H. right. eauto.
      * intros [(e & [=] & _) | (a' & [= <-] & H)]. exact H.
  - intros e He Hcode. unfold CalculateScore. rewrite Hdef.
    fold artifactName. fold fetched. rewrite He.
    rewrite decideTakeAction_abort by assumption. reflexivity.
Qed.

(** A score formula fails exactly in the ways [evaluationError] lists,
    and then with no value, whatever the score artifact and [takeAction]
    are. *)
Lemma processScoreFormula_error resource f e scoreArtifact takeAction :
  evaluationError resource f e ->
  processScoreFormula f resource scoreArtifact takeAction = failed e.
Proof.
  intros Hfail. unfold processScoreFormula.
  destruct Hfail as [e Hsub | extended Hsub Hexpr | extended e Hsub Hexpr Hart
                    | extended artifact e Hsub Hexpr Hart Hmap
                    | extended artifact m e Hsub Hexpr Hart Hmap Heval];
    rewrite Hsub; try reflexivity;
    try (apply is_empty_false in Hexpr; rewrite Hexpr, Hart);
    try (rewrite Hexpr; reflexivity);
    try reflexivity.
  - rewrite Hmap. reflexivity.
  - rewrite Hmap, Heval. reflexivity.
Qed.

Lemma processScoreFormula_error_inv resource f e scoreArtifact takeAction :
  sr_err (processScoreFormula f resource scoreArtifact takeAction) = Some e ->
  evaluationError resource f e.
Proof.
  unfold processScoreFormula.
  destruct (patterns_SubstituteReferenceEntity (artifact_pattern f) resource)
    as [e0 | extended] eqn:Hsub.
  - intros [= <-]. apply error_pattern. exact Hsub.
  - destruct (is_empty (score_expression f)) eqn:Hexpr.
    + intros [= <-]. apply error_expression with extended; [exact Hsub |].
      apply is_empty_true. exact Hexpr.
    + apply is_empty_false in Hexpr.
      destruct (getArtifact extended true) as [e0 | artifact] eqn:Hart.
      * intros [= <-]. apply error_fetch; assumption.
      * destruct (getMap _ _) as [e0 | m] eqn:Hmap.
        -- intros [= <-]. apply error_decode with extended artifact; assumption.
        -- destruct (evaluateScoreExpression _ _) as [e0 | v] eqn:Heval.
           ++ intros [= <-].
              apply error_evaluate with extended artifact m; assumption.
           ++ discriminate.
Qed.

(** The loop stops at a formula that evaluates but whose reference id is
    rejected, the earlier formulas having passed. *)
Lemma rollUpLoop_rejected_first resource scoreArtifact takeAction pre f post m u :
  Forall (passes resource scoreArtifact takeAction) pre ->
  sr_err (processScoreFormula f resource scoreArtifact takeAction) = None ->
  rollUpLoop (pre ++ f :: post) resource scoreArtifact takeAction m u
  = if is_empty (reference_id f) then inl (ErrMissingReferenceId f)
    else if strings_Contains (reference_id f) "-"
    then inl (ErrInvalidReferenceId f)
    else rollUpLoop post resource scoreArtifact takeAction
           (<[reference_id f :=
                sr_value (processScoreFormula f resource scoreArtifact takeAction)]>
              (foldl (storeResult resource scoreArtifact takeAction) m pre))
           (u || existsb
                   (fun g => sr_needsUpdate
                               (processScoreFormula g resource scoreArtifact
                                  takeAction)) pre
            || sr_needsUpdate
                 (processScoreFormula f resource scoreArtifact takeAction)).
Proof.
  intros Hpre Hf. rewrite rollUpLoop_app by assumption.
  simpl. rewrite Hf. reflexivity.
Qed.

(** C7. When the formula of the definition evaluates to an error,
    CalculateScore returns that error and calls neither SetArtifact nor
    the printer; no run that uploads an artifact had a formula error.
    The error of a single score formula is the one its evaluation fails
    with: an unresolved pattern, a missing expression, a failed fetch, a
    failed decoding, a failed expression.  For a rollup whose earlier
    inner formulas pass, the error is the one of the first inner formula
    that fails: its evaluation error under the rollup's prefix, or the
    error of its rejected reference id.  When all inner formulas pass
    the error is the one of the rollup expression.  A definition without
    a formula, a rollup without inner formulas or without an expression
    fails with the error of that check. *)
Theorem CalculateScore_formula_error defArtifact resource dryRun definition
  scoreArtifact takeAction :
  proto_Unmarshal (art_contents defArtifact) = inr definition ->
  (let artifactName :=
     rn_string resource +:+ "/artifacts/" +:+ scoreID (def_id definition) in
   decideTakeAction artifactName (getArtifact artifactName false) defArtifact
   = inr (scoreArtifact, takeAction)) ->
  (forall e,
     sr_err (processFormula definition resource scoreArtifact takeAction)
     = Some e ->
     CalculateScore defArtifact resource dryRun = (Some e, [])) /\
  (forall r pre f post e,
     def_formula definition = FormulaRollup r ->
     score_formulas r = pre ++ f :: post ->
     rollup_expression r <> "" ->
     Forall (passes resource scoreArtifact takeAction) pre ->
     sr_err (processScoreFormula f resource scoreArtifact takeAction) = Some e ->
     processFormula definition resource scoreArtifact takeAction
     = failed (ErrRollupScoreFormula e) /\
     CalculateScore defArtifact resource dryRun
     = (Some (ErrRollupScoreFormula e), [])) /\
  (forall a,
     EffSetArtifact a ∈ (CalculateScore defArtifact resource dryRun).2 ->
     sr_err (processFormula definition resource scoreArtifact takeAction)
     = None) /\
  (forall f e,
     def_formula definition = FormulaScore f ->
     evaluationError resource f e ->
     CalculateScore defArtifact resource dryRun = (Some e, [])) /\
  (forall f e,
     def_formula definition = FormulaScore f ->
     sr_err (processFormula definition resource scoreArtifact takeAction)
     = Some e ->
     evaluationError resource f e) /\
  (forall r pre f post,
     def_formula definition = FormulaRollup r ->
     score_formulas r = pre ++ f :: post ->
     rollup_expression r <> "" ->
     Forall (passes resource scoreArtifact takeAction) pre ->
     (forall e,
        evaluationError resource f e ->
        CalculateScore defArtifact resource dryRun
        = (Some (ErrRollupScoreFormula e), [])) /\
     (sr_err (processScoreFormula f resource scoreArtifact takeAction) = None ->
      reference_id f = "" ->
      CalculateScore defArtifact resource dryRun
      = (Some (ErrMissingReferenceId f), [])) /\
     (sr_err (processScoreFormula f resource scoreArtifact takeAction) = None ->
      reference_id f <> "" ->
      strings_Contains (reference_id f) "-" = true ->
      CalculateScore defArtifact resource dryRun
      = (Some (ErrInvalidReferenceId f), []))) /\
  (forall r e,
     def_formula definition = FormulaRollup r ->
     score_formulas r <> [] ->
     rollup_expression r <> "" ->
     Forall (passes resource scoreArtifact takeAction) (score_formulas r) ->
     takeAction
     || existsb
          (fun f => sr_needsUpdate
                      (processScoreFormula f resource scoreArtifact takeAction))
          (score_formulas r) = true ->
     evaluateScoreExpression (rollup_expression r)
       (foldl (storeResult resource scoreArtifact takeAction) ∅
          (score_formulas r)) = inl e ->
     CalculateScore defArtifact resource dryRun = (Some e, [])) /\
  (def_formula definition = FormulaUnset ->
   CalculateScore defArtifact resource dryRun = (Some ErrInvalidFormula, [])) /\
  (forall r,
     def_formula definition = FormulaRollup r ->
     (score_formulas r = [] ->
      CalculateScore defArtifact resource dryRun
      = (Some (ErrMissingScoreFormulas r), [])) /\
     (score_formulas r <> [] -> rollup_expression r = "" ->
      CalculateScore defArtifact resource dryRun
      = (Some (ErrMissingRollupExpression r), []))).
Proof.
  intros Hdef Hdecide.
  assert (Herror : forall e,
    sr_err (processFormula definition resource scoreArtifact takeAction)
    = Some e ->
    CalculateScore defArtifact resource dryRun = (Some e, [])).
  { intros e He. unfold CalculateScore. rewrite Hdef.
    cbv zeta in Hdecide. rewrite Hdecide, He. reflexivity. }
  assert (Hrollup : forall r pre f post,
    def_formula definition = FormulaRollup r ->
    score_formulas r = pre ++ f :: post ->
    rollup_expression r <> "" ->
    processFormula definition resource scoreArtifact takeAction
    = match rollUpLoop (pre ++ f :: post) resource scoreArtifact takeAction
              ∅ takeAction with
      | inl e => failed e
      | inr (rollUpMap, updateRequired) =>
          if updateRequired then
            match evaluateScoreExpression (rollup_expression r) rollUpMap with
            | inl e => failed e
            | inr v => {| sr_value := v; sr_needsUpdate := true; sr_err := None |}
            end
          else {| sr_value := VNil; sr_needsUpdate := false; sr_err := None |}
      end).
  { intros r pre f post Hr Hfs Hexpr.
    unfold processFormula. rewrite Hr. unfold processRollUpFormula.
    rewrite Hfs. rewrite length_app. simpl length.
    replace (length pre + S (length post) =? 0)%nat with false
      by (symmetry; apply Nat.eqb_neq; lia).
    apply is_empty_false in Hexpr. rewrite Hexpr. reflexivity. }
  split; [exact Herror |]. split; [| split; [| split; [| split; [| split;
    [| split; [| split]]]]]].
  - intros r pre f post e Hr Hfs Hexpr Hpre Hf.
    assert (Hres : processFormula definition resource scoreArtifact takeAction
                   = failed (ErrRollupScoreFormula e)).
    { rewrite (Hrollup r pre f post Hr Hfs Hexpr).
      rewrite (rollUpLoop_first_failure resource scoreArtifact takeAction
                 pre f post ∅ takeAction e Hpre Hf).
      reflexivity. }
    split; [exact Hres |]. apply Herror. rewrite Hres. reflexivity.
  - intros a Ha.
    destruct (sr_err (processFormula definition resource scoreArtifact takeAction))
      as [e |] eqn:He; [| reflexivity].
    rewrite (Herror e eq_refl) in Ha. simpl in Ha. inversion Ha.
  - intros f e Hf Hfail. apply Herror. unfold processFormula. rewrite Hf.
    rewrite (processScoreFormula_error _ _ _ scoreArtifact takeAction Hfail).
    reflexivity.
  - intros f e Hf He.
    apply processScoreFormula_error_inv with scoreArtifact takeAction.
    unfold processFormula in He. rewrite Hf in He. exact He.
  - intros r pre f post Hr Hfs Hexpr Hpre. split; [| split].
    + intros e Hfail. apply Herror.
      rewrite (Hrollup r pre f post Hr Hfs Hexpr).
      rewrite (rollUpLoop_first_failure resource scoreArtifact takeAction
                 pre f post ∅ takeAction e Hpre).
      * reflexivity.
      * rewrite (processScoreFormula_error _ _ _ scoreArtifact takeAction Hfail).
        reflexivity.
    + intros Hf Hid. apply Herror.
      rewrite (Hrollup r pre f post Hr Hfs Hexpr).
      rewrite (rollUpLoop_rejected_first _ _ _ pre f post ∅ takeAction Hpre Hf).
      rewrite Hid. reflexivity.
    + intros Hf Hid Hdash. apply Herror.
      rewrite (Hrollup r pre f post Hr Hfs Hexpr).
      rewrite (rollUpLoop_rejected_first _ _ _ pre f post ∅ takeAction Hpre Hf).
      apply is_empty_false in Hid. rewrite Hid, Hdash. reflexivity.
  - intros r e Hr Hfs Hexpr Hpass Hupdate Heval. apply Herror.
    unfold processFormula. rewrite Hr. unfold processRollUpFormula.
    destruct (score_formulas r) as [| f0 fs] eqn:Efs; [congruence |].
    simpl length. simpl Nat.eqb. cbv iota.
    apply is_empty_false in Hexpr. rewrite Hexpr.
    rewrite (rollUpLoop_passing resource scoreArtifact takeAction
               (f0 :: fs) ∅ takeAction Hpass).
    rewrite Hupdate, Heval. reflexivity.
  - intros Hf. apply Herror. unfold processFormula. rewrite Hf. reflexivity.
  - intros r Hr. split.
    + intros Hfs. apply Herror. unfold processFormula. rewrite Hr.
      unfold processRollUpFormula. rewrite Hfs. reflexivity.
    + intros Hfs Hexpr. apply Herror. unfold processFormula. rewrite Hr.
      unfold processRollUpFormula.
      destruct (score_formulas r); [congruence |].
      simpl length. simpl Nat.eqb. cbv iota. rewrite Hexpr. reflexivity.
Qed.

End CalculateScoreProperties.

(** ** The properties on concrete runs *)

(** C6, on a rollup whose second formula has the reference id ["b-c"], and
    on a rollup with the reference ids ["a"] and ["b"]. *)
Lemma processRollUpFormula_reference_ids_witness :
  let bad := Examples.rollup [Examples.lintFormula "score" "a";
                              Examples.lintFormula "score" "b-c"] in
  let good := Examples.rollup [Examples.lintFormula "score" "a";
                               Examples.lintFormula "score" "b"] in
  let pk := Examples.fixedPackages
              (Examples.integerDefinition 0 100 [] (FormulaRollup good)) in
  let client := Examples.storeClient (Examples.lintStore 5) in
  (exists e,
     processRollUpFormula bad Examples.specResource None true = failed e) /\
  rollUpLoop (score_formulas good) Examples.specResource None true ∅ true
  = inr ({[ "a" := VInt64 3; "b" := VInt64 3 ]}, true).
Proof.
  intros bad good pk client. split.
  - destruct (processRollUpFormula_reference_ids (pk := pk) (client := client)
                Examples.specResource None true bad) as [Hbad _].
    apply (Hbad (Examples.lintFormula "score" "b-c")).
    + apply elem_of_cons. right. apply elem_of_cons. left. reflexivity.
    + right. reflexivity.
  - destruct (processRollUpFormula_reference_ids (pk := pk) (client := client)
                Examples.specResource None true good) as [_ Hgood].
    destruct Hgood as (Hloop & _).
    + repeat constructor; discriminate.
    + rewrite Hloop. reflexivity.
Defined.

(** C2, on a score artifact written at 100 s and a definition updated at
    99.5 s, with a threshold of 1 s: the definition counts as newer. *)
Lemma CalculateScore_takeAction_witness :
  let definition :=
    Examples.integerDefinition 0 100 []
      (FormulaScore (Examples.lintFormula "score" "")) in
  let pk := Examples.fixedPackages definition in
  let client :=
    Examples.storeClient (Examples.scoredStore 5 100000000000) in
  let defArtifact := Examples.definitionArtifact 99500000000 in
  exists a,
    getArtifact (art_name (Examples.scoreArtifactAt 0)) false = inr a /\
    art_update_time a
    < art_update_time defArtifact + patterns_ResourceUpdateThreshold.
Proof.
  intros definition pk client defArtifact.
  destruct (CalculateScore_takeAction (pk := pk) (client := client)
              defArtifact Examples.specResource false definition eq_refl)
    as (_ & Htake & _).
  destruct (Htake (Some (Examples.scoreArtifactAt 100000000000)) true)
    as (_ & Hiff).
  - vm_compute. reflexivity.
  - destruct Hiff as [Hiff _].
    destruct (Hiff eq_refl) as [(e & He & _) | (a & Ha & Hlt)].
    + vm_compute in He. discriminate He.
    + exists a. split; [exact Ha | exact Hlt].
Defined.

(** C7, on a rollup whose first formula passes and whose second formula
    reads an undefined key, and on a single score formula that reads an
    undefined key: each run ends with that error and no effect. *)
Lemma CalculateScore_formula_error_witness :
  (let r := Examples.rollup [Examples.lintFormula "score" "a";
                             Examples.lintFormula "missing" "b"] in
   let definition := Examples.integerDefinition 0 100 [] (FormulaRollup r) in
   let pk := Examples.fixedPackages definition in
   let client := Examples.storeClient (Examples.lintStore 5) in
   CalculateScore (Examples.definitionArtifact 10) Examples.specResource false
   = (Some (ErrRollupScoreFormula (ErrExternal "undefined: missing")), [])) /\
  (let definition :=
     Examples.integerDefinition 0 100 []
       (FormulaScore (Examples.lintFormula "missing" "")) in
   let pk := Examples.fixedPackages definition in
   let client := Examples.storeClient (Examples.lintStore 5) in
   CalculateScore (Examples.definitionArtifact 10) Examples.specResource false
   = (Some (ErrExternal "undefined: missing"), [])).
Proof.
  split.
  - intros r definition pk client.
    destruct (CalculateScore_formula_error (pk := pk) (client := client)
                (Examples.definitionArtifact 10) Examples.specResource false
                definition None true eq_refl) as (_ & Hrollup & _).
    + vm_compute. reflexivity.
    + apply (Hrollup r [Examples.lintFormula "score" "a"]
               (Examples.lintFormula "missing" "b") []
               (ErrExternal "undefined: missing")).
      * reflexivity.
      * reflexivity.
      * discriminate.
      * repeat constructor; discriminate.
      * vm_compute. reflexivity.
  - intros definition pk client.
    destruct (CalculateScore_formula_error (pk := pk) (client := client)
                (Examples.definitionArtifact 10) Examples.specResource false
                definition None true eq_refl) as (_ & _ & _ & Hsingle & _).
    + vm_compute. reflexivity.
    + apply (Hsingle (Examples.lintFormula "missing" "")
               (ErrExternal "undefined: missing")); [reflexivity |].
      apply (error_evaluate Examples.specResource
               (Examples.lintFormula "missing" "")
               (art_name (Examples.lintArtifact 5)) (Examples.lintArtifact 5)
               {[ "score" := VInt64 3 ]} (ErrExternal "undefined: missing")).
      * reflexivity.
      * discriminate.
      * vm_compute. reflexivity.
      * reflexivity.
      * reflexivity.
Defined.

End ScoringSpec.

(** * Properties of resource names *)

Module NamesSpec.

Import Names.

Lemma slashes_app a b : slashes (a +:+ b) = (slashes a + slashes b)%nat.
Proof.
  induction a as [| c a IH]; simpl; [reflexivity |]. rewrite IH. lia.
Qed.

Lemma idChar_not_slash c : idChar c = true -> Ascii.eqb c "/" = false.
Proof.
  destruct (Ascii.eqb_spec c "/") as [-> | _]; [| reflexivity].
  vm_compute. congruence.
Qed.

Lemma validID_slashes s : validID s = true -> slashes s = O.
Proof.
  unfold validID. intros [_ Hchars]%andb_true_iff.
  induction s as [| c s IH]; simpl in *; [reflexivity |].
  apply andb_true_iff in Hchars as [Hc Hs].
  rewrite (idChar_not_slash c Hc), (IH Hs). reflexivity.
Qed.

(** Two slash-free prefixes followed by a slash split a string the same way. *)
Lemma prefix_slash_inj p p' r r' :
  slashes p = O -> slashes p' = O ->
  p +:+ String "/" r = p' +:+ String "/" r' -> p = p' /\ r = r'.
Proof.
  revert p'. induction p as [| c p IH]; intros [| c' p']; simpl; intros Hp Hp' Heq.
  - injection Heq as ->. split; reflexivity.
  - injection Heq as <- _. simpl in Hp'. discriminate.
  - injection Heq as -> _. simpl in Hp. discriminate.
  - injection Heq as -> Heq.
    destruct (IH p') as [-> ->]; try assumption; [| | split; reflexivity].
    + destruct (Ascii.eqb c' "/"); [discriminate | exact Hp].
    + destruct (Ascii.eqb c' "/"); [discriminate | exact Hp'].
Qed.

(** The renderer of API names is injective at a parsed name. *)
Lemma Api_String_inj a b :
  validApi a -> Api_String a = Api_String b -> a = b.
Proof.
  intros [Hp Ha] Heq. destruct a as [p a], b as [p' a']. simpl in *.
  unfold Api_String in Heq. simpl in Heq.
  injection Heq as Heq.
  apply validID_slashes in Hp, Ha.
  pose proof (f_equal slashes Heq) as Hcount.
  rewrite !slashes_app in Hcount. simpl in Hcount.
  assert (Hp' : slashes p' = O) by lia.
  simpl in Heq.
  destruct (prefix_slash_inj _ _ _ _ Hp Hp' Heq) as [-> Hrest].
  injection Hrest as ->. reflexivity.
Qed.

Lemma ParseApi_valid name a : ParseApi name = inr a -> validApi a.
Proof.
  unfold ParseApi.
  destruct (split "/" name) as [| k1 [| p [| k2 [| l [| k3 [| a0 [| ? ?]]]]]]];
    try discriminate.
  destruct (_ && _) eqn:Hc; [| discriminate].
  intros [= <-]. repeat (apply andb_true_iff in Hc as [Hc ?]).
  split; assumption.
Qed.

Lemma ParseVersion_valid name v : ParseVersion name = inr v -> validApi (Version_Api v).
Proof.
  unfold ParseVersion.
  destruct (split "/" name)
    as [| k1 [| p [| k2 [| l [| k3 [| a0 [| k4 [| v0 [| ? ?]]]]]]]]];
    try discriminate.
  destruct (_ && _) eqn:Hc; [| discriminate].
  intros [= <-]. repeat (apply andb_true_iff in Hc as [Hc ?]).
  split; assumption.
Qed.

Lemma ParseDeployment_valid name d :
  ParseDeployment name = inr d -> validApi (Deployment_Api d).
Proof.
  unfold ParseDeployment.
  destruct (split "/" name)
    as [| k1 [| p [| k2 [| l [| k3 [| a0 [| k4 [| v0 [| ? ?]]]]]]]]];
    try discriminate.
  destruct (_ && _) eqn:Hc; [| discriminate].
  intros [= <-]. repeat (apply andb_true_iff in Hc as [Hc ?]).
  split; assumption.
Qed.

End NamesSpec.

(** * Properties of the declarative export *)

Module PatchSpec.

Import Patch.

Section ExportProperties.

Context {registry : Registry}.

Variable yaml_Encode : Document ApiData -> error + bytes.

Lemma eqb_empty_false s : s <> "" -> String.eqb s "" = false.
Proof. intros Hs. apply String.eqb_neq. exact Hs. Qed.

Lemma Api_String_differ a b :
  Names.validApi a -> a <> b ->
  String.eqb (Names.Api_String a) (Names.Api_String b) = false.
Proof.
  intros Ha Hne. apply String.eqb_neq. intros Heq.
  apply Hne, NamesSpec.Api_String_inj; assumption.
Qed.

(** C8. On export, an empty recommended version (deployment) name gives
    the empty string.  A non-empty name that parses as a version
    (deployment) name gives the bare version (deployment) id when its API
    is the exported API, and the name itself, unchanged, when it is not. *)
Theorem relativeVersionName_spec (apiName : Names.Api) :
  relativeVersionName apiName "" = inr "" /\
  relativeDeploymentName apiName "" = inr "" /\
  (forall version versionName,
     version <> "" -> Names.ParseVersion version = inr versionName ->
     (Names.Version_Api versionName = apiName ->
      relativeVersionName apiName version = inr (Names.VersionID versionName)) /\
     (Names.Version_Api versionName <> apiName ->
      relativeVersionName apiName version = inr version)) /\
  (forall deployment deploymentName,
     deployment <> "" -> Names.ParseDeployment deployment = inr deploymentName ->
     (Names.Deployment_Api deploymentName = apiName ->
      relativeDeploymentName apiName deployment
      = inr (Names.DeploymentID deploymentName)) /\
     (Names.Deployment_Api deploymentName <> apiName ->
      relativeDeploymentName apiName deployment = inr deployment)).
Proof.
  split; [reflexivity |]. split; [reflexivity |]. split.
  - intros version versionName Hne Hparse.
    unfold relativeVersionName. rewrite (eqb_empty_false _ Hne), Hparse.
    split.
    + intros <-. rewrite String.eqb_refl. reflexivity.
    + intros Hother. rewrite Api_String_differ; [reflexivity | | exact Hother].
      apply NamesSpec.ParseVersion_valid with version. exact Hparse.
  - intros deployment deploymentName Hne Hparse.
    unfold relativeDeploymentName. rewrite (eqb_empty_false _ Hne), Hparse.
    split.
    + intros <-. rewrite String.eqb_refl. reflexivity.
    + intros Hother. rewrite Api_String_differ; [reflexivity | | exact Hother].
      apply NamesSpec.ParseDeployment_valid with deployment. exact Hparse.
Qed.

(** ** Child artifacts *)

Lemma forEach_collectHandler ms artifacts log :
  forEach collectHandler ms (artifacts, log)
  = (None, (artifacts ++ omap exported ms, log ++ omap skipped ms)).
Proof.
  revert artifacts log.
  induction ms as [| m ms IH]; intros artifacts log; simpl.
  - rewrite !app_nil_r. reflexivity.
  - unfold exported at 1, skipped at 1.
    destruct (newArtifact m) as [err | artifact]; simpl.
    + rewrite IH, <- app_assoc. reflexivity.
    + destruct (String.eqb (Kind (doc_Header artifact)) "Artifact"); simpl;
        rewrite IH, <- app_assoc; reflexivity.
Qed.

Lemma collectChildArtifacts_eq artifactPattern :
  collectChildArtifacts artifactPattern
  = let listing := registry_ListArtifacts artifactPattern "" true in
    (match listing.2 with
     | Some err => inl err
     | None => inr (omap exported listing.1)
     end, omap skipped listing.1).
Proof.
  unfold collectChildArtifacts, listWith. rewrite forEach_collectHandler.
  simpl. destruct (registry_ListArtifacts artifactPattern "" true).2; reflexivity.
Qed.

Lemma exported_kind m a : exported m = Some a -> Kind (doc_Header a) <> "Artifact".
Proof.
  unfold exported. destruct (newArtifact m) as [| artifact]; [discriminate |].
  destruct (String.eqb_spec (Kind (doc_Header artifact)) "Artifact");
    [discriminate |].
  intros [= <-]. assumption.
Qed.

Lemma omap_exported_kind (ms : list rpc_Artifact) (a : Document ArtifactData) :
  a ∈ omap exported ms -> Kind (doc_Header a) <> "Artifact".
Proof.
  intros (m & _ & Hm)%list_elem_of_omap. exact (exported_kind m a Hm).
Qed.

(** C9. When the listing of the child artifacts succeeds,
    collectChildArtifacts returns, in listing order, the artifacts that
    decode to a kind other than the generic ["Artifact"]: an artifact
    that fails to decode, and an artifact of the generic kind, is logged
    and contributes nothing.  No artifact of the generic kind is in the
    child artifact list of a nested export. *)
Theorem collectChildArtifacts_skips artifactPattern ms :
  registry_ListArtifacts artifactPattern "" true = (ms, None) ->
  (exists artifacts log,
     collectChildArtifacts artifactPattern = (inr artifacts, log) /\
     artifacts = omap exported ms /\
     log = omap skipped ms /\
     (forall a, a ∈ artifacts -> Kind (doc_Header a) <> "Artifact") /\
     (forall m, m ∈ ms ->
        (exists err, newArtifact m = inl err)
        \/ (exists a, newArtifact m = inr a /\ Kind (doc_Header a) = "Artifact") ->
        exported m = None /\
        exists entry, skipped m = Some entry /\ entry ∈ log)) /\
  (forall message api log children,
     newApi message true = (inr api, log) ->
     Artifacts (doc_Data api) = Some children ->
     forall a, a ∈ children -> Kind (doc_Header a) <> "Artifact").
Proof.
  intros Hlist. split.
  - exists (omap exported ms), (omap skipped ms).
    rewrite collectChildArtifacts_eq, Hlist. simpl.
    split; [reflexivity |]. split; [reflexivity |]. split; [reflexivity |].
    split; [apply omap_exported_kind |].
    intros m Hm Hskip.
    assert (Hm' : exported m = None /\ exists entry, skipped m = Some entry).
    { unfold exported, skipped.
      destruct Hskip as [[err ->] | (a & -> & ->)]; simpl; eauto. }
    destruct Hm' as (Hnone & entry & Hentry). split; [exact Hnone |].
    exists entry. split; [exact Hentry |].
    apply list_elem_of_omap. eauto.
  - intros message api log children Hnew Hchildren a Ha.
    unfold newApi in Hnew.
    destruct (Names.ParseApi (Name message)) as [| apiName]; [discriminate |].
    destruct (relativeVersionName apiName (RecommendedVersion message));
      [discriminate |].
    destruct (relativeDeploymentName apiName (RecommendedDeployment message));
      [discriminate |].
    unfold newApiChildren in Hnew.
    destruct (listWith _ versionHandler _) as [[err |] [versions lv]];
      [discriminate |].
    destruct (listWith _ deploymentHandler _) as [[err |] [deployments ld]];
      [discriminate |].
    rewrite collectChildArtifacts_eq in Hnew. cbv zeta in Hnew.
    destruct (registry_ListArtifacts (Names.Api_Artifact apiName "-") "" true)
      as [listed [err |]]; simpl in Hnew; [discriminate |].
    injection Hnew as <- _. simpl in Hchildren. injection Hchildren as <-.
    apply omap_exported_kind with listed. exact Ha.
Qed.

(** C10. ExportAPI returns an error, and no document, whenever the
    recommended version or the recommended deployment of the API is not
    empty and does not parse as a version or deployment name; nothing is
    listed or logged before the failure. *)
Theorem ExportAPI_malformed_recommended message nested :
  (RecommendedVersion message <> "" /\
   exists e, Names.ParseVersion (RecommendedVersion message) = inl e)
  \/ (RecommendedDeployment message <> "" /\
      exists e, Names.ParseDeployment (RecommendedDeployment message) = inl e) ->
  exists err, ExportAPI yaml_Encode message nested = (inl err, []).
Proof.
  intros Hbad. unfold ExportAPI, newApi.
  destruct (Names.ParseApi (Name message)) as [| apiName]; [eauto |].
  destruct Hbad as [(Hne & e & Hparse) | (Hne & e & Hparse)].
  - unfold relativeVersionName.
    rewrite (eqb_empty_false _ Hne), Hparse. eauto.
  - destruct (relativeVersionName apiName (RecommendedVersion message));
      [eauto |].
    unfold relativeDeploymentName.
    rewrite (eqb_empty_false _ Hne), Hparse. eauto.
Qed.

End ExportProperties.

(** C8, for the exported API [petstore]: its own version 1.0.0 becomes
    relative, a version of another API stays as it is. *)
Lemma relativeVersionName_spec_witness :
  relativeVersionName PatchExamples.petstore
    "projects/p/locations/global/apis/petstore/versions/1.0.0" = inr "1.0.0" /\
  relativeVersionName PatchExamples.petstore
    "projects/p/locations/global/apis/bookstore/versions/1.0.0"
  = inr "projects/p/locations/global/apis/bookstore/versions/1.0.0" /\
  relativeDeploymentName PatchExamples.petstore
    "projects/p/locations/global/apis/petstore/deployments/prod" = inr "prod".
Proof.
  destruct (relativeVersionName_spec PatchExamples.petstore)
    as (_ & _ & Hversion & Hdeployment).
  split; [| split].
  - destruct (Hversion "projects/p/locations/global/apis/petstore/versions/1.0.0"
                {| Names.version_ProjectID := "p";
                   Names.version_ApiID := "petstore";
                   Names.VersionID := "1.0.0" |}) as [Hsame _].
    + discriminate.
    + reflexivity.
    + apply Hsame. reflexivity.
  - destruct (Hversion "projects/p/locations/global/apis/bookstore/versions/1.0.0"
                {| Names.version_ProjectID := "p";
                   Names.version_ApiID := "bookstore";
                   Names.VersionID := "1.0.0" |}) as [_ Hother].
    + discriminate.
    + reflexivity.
    + apply Hother. discriminate.
  - destruct (Hdeployment
                "projects/p/locations/global/apis/petstore/deployments/prod"
                {| Names.deployment_ProjectID := "p";
                   Names.deployment_ApiID := "petstore";
                   Names.DeploymentID := "prod" |}) as [Hsame _].
    + discriminate.
    + reflexivity.
    + apply Hsame. reflexivity.
Defined.

(** C9, on a listing of three artifacts: one of a known kind, one of the
    generic kind, one that does not decode.  Only the first is exported. *)
Lemma collectChildArtifacts_skips_witness :
  let registry := PatchExamples.listedRegistry PatchExamples.threeArtifacts in
  exists artifact log,
    collectChildArtifacts (Names.Api_Artifact PatchExamples.petstore "-")
    = (inr [artifact], log) /\
    Kind (doc_Header artifact) = "Lifecycle" /\
    log = [WarnSkipping "blob"; WarnSkippingError "broken" (ErrExternal "unmarshal")].
Proof.
  intros registry.
  destruct (collectChildArtifacts_skips (registry := registry)
              (Names.Api_Artifact PatchExamples.petstore "-")
              PatchExamples.threeArtifacts eq_refl)
    as [(artifacts & log & Hcollect & -> & -> & _) _].
  eexists. eexists. split; [exact Hcollect |]. split; reflexivity.
Defined.

(** C10, for a recommended version given as a bare id. *)
Lemma ExportAPI_malformed_recommended_witness :
  let registry := PatchExamples.listedRegistry PatchExamples.threeArtifacts in
  exists err,
    ExportAPI (fun _ => inr []) (PatchExamples.petstoreMessage "1.0.0" "") true
    = (inl err, []).
Proof.
  intros registry.
  apply (ExportAPI_malformed_recommended (registry := registry)).
  left. split; [discriminate |]. eexists. reflexivity.
Defined.

End PatchSpec.

(** * Properties of the action planner *)

Module ControllerSpec.

Import Controller.

Section PlannerProperties.

Context {engine : PatternEngine}.

Lemma accumulate_length maxActions new actions :
  (length actions <= maxActions)%nat ->
  (length (accumulate maxActions new actions).1 <= maxActions)%nat.
Proof.
  revert actions. induction new as [| a new IH]; intros actions Hlen; simpl.
  - exact Hlen.
  - destruct (maxActions <=? length actions)%nat eqn:Hfull; [exact Hlen |].
    apply IH. apply Nat.leb_gt in Hfull.
    rewrite length_app. simpl. lia.
Qed.

Lemma planLoop_length maxActions projectID gs actions :
  (length actions <= maxActions)%nat ->
  (length (planLoop maxActions projectID gs actions) <= maxActions)%nat.
Proof.
  revert actions. induction gs as [| g gs IH]; intros actions Hlen; simpl.
  - exact Hlen.
  - pose proof (accumulate_length maxActions (resourceActions projectID g)
                  actions Hlen) as Hacc.
    destruct (accumulate maxActions (resourceActions projectID g) actions)
      as [actions' [|]]; simpl in Hacc; [exact Hacc | apply IH; exact Hacc].
Qed.

Lemma insertAction_length a l : length (insertAction a l) = S (length l).
Proof.
  induction l as [| b l IH]; simpl; [reflexivity |].
  destruct (String.leb (Command a) (Command b)); simpl; [reflexivity |].
  rewrite IH. reflexivity.
Qed.

Lemma sortActions_length l : length (sortActions l) = length l.
Proof.
  induction l as [| a l IH]; simpl; [reflexivity |].
  unfold sortActions in *. simpl.
  rewrite insertAction_length, IH. reflexivity.
Qed.

(** C1. For every manifest, project and cap, the planner returns at most
    [maxActions] actions. *)
Theorem ProcessManifest_max_actions projectID manifest maxActions :
  (length (ProcessManifest projectID manifest maxActions) <= maxActions)%nat.
Proof.
  unfold ProcessManifest. rewrite sortActions_length.
  apply planLoop_length. simpl. lia.
Qed.

End PlannerProperties.

(** The two cases of TestMaxActions: three specs without the artifact,
    with the caps 2 and 4. *)
Example ProcessManifest_three_specs :
  let engine := ControllerExamples.petstoreEngine in
  length (ProcessManifest "controller-test"
            ControllerExamples.vocabularyManifest 2) = 2%nat /\
  length (ProcessManifest "controller-test"
            ControllerExamples.vocabularyManifest 4) = 3%nat /\
  Command <$> ProcessManifest "controller-test"
                ControllerExamples.vocabularyManifest 4
  = cand_command <$> [ControllerExamples.specCandidate "1.0.0";
                      ControllerExamples.specCandidate "1.0.1";
                      ControllerExamples.specCandidate "1.1.0"].
Proof. intros engine. repeat split. Qed.

End ControllerSpec.

(** * More on resource names: parsing and rendering *)

Module NamesFacts.

Import Names.

Lemma split_nonempty sep s : split sep s <> [].
Proof.
  destruct s as [| c s]; simpl; [discriminate |].
  destruct (Ascii.eqb c sep); [discriminate |].
  destruct (split sep s); discriminate.
Qed.

Lemma join_cons seg segs :
  segs <> [] -> join (seg :: segs) = seg +:+ String "/" (join segs).
Proof. destruct segs; [contradiction | reflexivity]. Qed.

(** Joining the segments of a string gives the string back. *)
Lemma join_split s : join (split "/" s) = s.
Proof.
  induction s as [| c s IH]; simpl; [reflexivity |].
  destruct (Ascii.eqb_spec c "/") as [-> | Hc].
  - rewrite join_cons by apply split_nonempty. rewrite IH. reflexivity.
  - pose proof (split_nonempty "/" s) as Hne.
    destruct (split "/" s) as [| seg segs]; [contradiction |].
    destruct segs as [| seg' segs].
    + simpl in *. rewrite IH. reflexivity.
    + rewrite join_cons in * by discriminate. rewrite <- IH. reflexivity.
Qed.

Lemma split_length s : length (split "/" s) = S (slashes s).
Proof.
  induction s as [| c s IH]; simpl; [reflexivity |].
  destruct (Ascii.eqb c "/"); simpl; [rewrite IH; reflexivity |].
  pose proof (split_nonempty "/" s) as Hne.
  destruct (split "/" s) as [| seg segs]; [contradiction |]. exact IH.
Qed.

Lemma split_no_slash s : slashes s = O -> split "/" s = [s].
Proof.
  induction s as [| c s IH]; simpl; [reflexivity |].
  destruct (Ascii.eqb c "/"); [discriminate |]. simpl. intros Hs.
  rewrite (IH Hs). reflexivity.
Qed.

Lemma split_app s r :
  slashes s = O -> split "/" (s +:+ String "/" r) = s :: split "/" r.
Proof.
  induction s as [| c s IH]; simpl; [reflexivity |].
  destruct (Ascii.eqb c "/"); [discriminate |]. simpl. intros Hs.
  rewrite (IH Hs). reflexivity.
Qed.

(** A name that parses is the rendering of what it parses to. *)
Lemma ParseApi_String name a : ParseApi name = inr a -> Api_String a = name.
Proof.
  unfold ParseApi. intros Hparse. rewrite <- (join_split name).
  destruct (split "/" name) as [| k1 [| p [| k2 [| l [| k3 [| a0 [| ? ?]]]]]]];
    try discriminate.
  destruct (_ && _) eqn:Hc; [| discriminate].
  injection Hparse as <-.
  repeat (apply andb_true_iff in Hc as [Hc ?]).
  repeat match goal with H : String.eqb _ _ = true |- _ =>
    apply String.eqb_eq in H; subst end.
  reflexivity.
Qed.

Lemma ParseVersion_String name v :
  ParseVersion name = inr v -> Version_String v = name.
Proof.
  unfold ParseVersion. intros Hparse. rewrite <- (join_split name).
  destruct (split "/" name)
    as [| k1 [| p [| k2 [| l [| k3 [| a0 [| k4 [| v0 [| ? ?]]]]]]]]];
    try discriminate.
  destruct (_ && _) eqn:Hc; [| discriminate].
  injection Hparse as <-.
  repeat (apply andb_true_iff in Hc as [Hc ?]).
  repeat match goal with H : String.eqb _ _ = true |- _ =>
    apply String.eqb_eq in H; subst end.
  reflexivity.
Qed.

Lemma ParseDeployment_String name d :
  ParseDeployment name = inr d -> Deployment_String d = name.
Proof.
  unfold ParseDeployment. intros Hparse. rewrite <- (join_split name).
  destruct (split "/" name)
    as [| k1 [| p [| k2 [| l [| k3 [| a0 [| k4 [| v0 [| ? ?]]]]]]]]];
    try discriminate.
  destruct (_ && _) eqn:Hc; [| discriminate].
  injection Hparse as <-.
  repeat (apply andb_true_iff in Hc as [Hc ?]).
  repeat match goal with H : String.eqb _ _ = true |- _ =>
    apply String.eqb_eq in H; subst end.
  reflexivity.
Qed.

Lemma ParseVersion_validID name v :
  ParseVersion name = inr v -> validID (VersionID v) = true.
Proof.
  unfold ParseVersion.
  destruct (split "/" name)
    as [| k1 [| p [| k2 [| l [| k3 [| a0 [| k4 [| v0 [| ? ?]]]]]]]]];
    try discriminate.
  destruct (_ && _) eqn:Hc; [| discriminate].
  intros [= <-]. apply andb_true_iff in Hc as [_ Hv]. exact Hv.
Qed.

Lemma ParseDeployment_validID name d :
  ParseDeployment name = inr d -> validID (DeploymentID d) = true.
Proof.
  unfold ParseDeployment.
  destruct (split "/" name)
    as [| k1 [| p [| k2 [| l [| k3 [| a0 [| k4 [| v0 [| ? ?]]]]]]]]];
    try discriminate.
  destruct (_ && _) eqn:Hc; [| discriminate].
  intros [= <-]. apply andb_true_iff in Hc as [_ Hv]. exact Hv.
Qed.

Lemma validID_nonempty s : validID s = true -> s <> "".
Proof. intros Hs ->. discriminate Hs. Qed.

(** The rendering of a name with valid ids parses to that name. *)
Lemma ParseVersion_render v :
  validApi (Version_Api v) -> validID (VersionID v) = true ->
  ParseVersion (Version_String v) = inr v.
Proof.
  destruct v as [p a v]. intros [Hp Ha] Hv. simpl in *.
  pose proof (NamesSpec.validID_slashes _ Hp) as Sp.
  pose proof (NamesSpec.validID_slashes _ Ha) as Sa.
  pose proof (NamesSpec.validID_slashes _ Hv) as Sv.
  unfold ParseVersion, Version_String.
  cbn [version_ProjectID version_ApiID VersionID].
  change ("projects/" +:+ p +:+ "/locations/global/apis/"
                      +:+ a +:+ "/versions/" +:+ v)
    with ("projects" +:+ String "/" (p +:+ String "/"
            ("locations" +:+ String "/" ("global" +:+ String "/"
               ("apis" +:+ String "/" (a +:+ String "/"
                  ("versions" +:+ String "/" v))))))).
  rewrite !split_app by (reflexivity || assumption).
  rewrite (split_no_slash v Sv). simpl.
  rewrite Hp, Ha, Hv. reflexivity.
Qed.

Lemma ParseDeployment_render d :
  validApi (Deployment_Api d) -> validID (DeploymentID d) = true ->
  ParseDeployment (Deployment_String d) = inr d.
Proof.
  destruct d as [p a d]. intros [Hp Ha] Hd. simpl in *.
  pose proof (NamesSpec.validID_slashes _ Hp) as Sp.
  pose proof (NamesSpec.validID_slashes _ Ha) as Sa.
  pose proof (NamesSpec.validID_slashes _ Hd) as Sd.
  unfold ParseDeployment, Deployment_String.
  cbn [deployment_ProjectID deployment_ApiID DeploymentID].
  change ("projects/" +:+ p +:+ "/locations/global/apis/"
                      +:+ a +:+ "/deployments/" +:+ d)
    with ("projects" +:+ String "/" (p +:+ String "/"
            ("locations" +:+ String "/" ("global" +:+ String "/"
               ("apis" +:+ String "/" (a +:+ String "/"
                  ("deployments" +:+ String "/" d))))))).
  rewrite !split_app by (reflexivity || assumption).
  rewrite (split_no_slash d Sd). simpl.
  rewrite Hp, Ha, Hd. reflexivity.
Qed.

Lemma ParseProjectWithLocation_String name p :
  ParseProjectWithLocation name = inr p -> Project_String p = name.
Proof.
  unfold ParseProjectWithLocation. intros Hparse. rewrite <- (join_split name).
  destruct (split "/" name) as [| k1 [| p0 [| k2 [| l [| ? ?]]]]];
    try discriminate.
  destruct (_ && _) eqn:Hc; [| discriminate].
  injection Hparse as <-.
  repeat (apply andb_true_iff in Hc as [Hc ?]).
  repeat match goal with H : String.eqb _ _ = true |- _ =>
    apply String.eqb_eq in H; subst end.
  reflexivity.
Qed.

Lemma ParseProjectWithLocation_render p :
  validID (ProjectID p) = true ->
  ParseProjectWithLocation (Project_String p) = inr p.
Proof.
  destruct p as [p]. simpl. intros Hp.
  pose proof (NamesSpec.validID_slashes _ Hp) as Sp.
  unfold ParseProjectWithLocation, Project_String.
  cbn [ProjectID].
  change ("projects/" +:+ p +:+ "/locations/global")
    with ("projects" +:+ String "/" (p +:+ String "/"
            ("locations" +:+ String "/" "global"))).
  rewrite !split_app by (reflexivity || assumption).
  simpl. rewrite Hp. reflexivity.
Qed.

(** A version name with eight or more slashes does not parse. *)
Lemma ParseVersion_slashes name v :
  ParseVersion name = inr v -> slashes name = 7%nat.
Proof.
  intros Hparse. pose proof (split_length name) as Hlen.
  unfold ParseVersion in Hparse.
  destruct (split "/" name)
    as [| k1 [| p [| k2 [| l [| k3 [| a0 [| k4 [| v0 [| ? ?]]]]]]]]];
    try discriminate.
  simpl in Hlen. lia.
Qed.

Lemma ParseDeployment_slashes name d :
  ParseDeployment name = inr d -> slashes name = 7%nat.
Proof.
  intros Hparse. pose proof (split_length name) as Hlen.
  unfold ParseDeployment in Hparse.
  destruct (split "/" name)
    as [| k1 [| p [| k2 [| l [| k3 [| a0 [| k4 [| v0 [| ? ?]]]]]]]]];
    try discriminate.
  simpl in Hlen. lia.
Qed.

End NamesFacts.

(** * More on the declarative export and on applying a document *)

Module PatchFacts.

Import Patch.

Lemma Version_Api_Version apiName id :
  Names.Version_Api (Names.Api_Version apiName id) = apiName.
Proof. destruct apiName; reflexivity. Qed.

Lemma Deployment_Api_Deployment apiName id :
  Names.Deployment_Api (Names.Api_Deployment apiName id) = apiName.
Proof. destruct apiName; reflexivity. Qed.

Lemma Api_Version_VersionID v :
  Names.Api_Version (Names.Version_Api v) (Names.VersionID v) = v.
Proof. destruct v; reflexivity. Qed.

Lemma Api_Deployment_DeploymentID d :
  Names.Api_Deployment (Names.Deployment_Api d) (Names.DeploymentID d) = d.
Proof. destruct d; reflexivity. Qed.

Lemma optionalVersionName_nonempty apiName id :
  id <> "" ->
  optionalVersionName apiName id
  = Names.Version_String (Names.Api_Version apiName id).
Proof.
  intros Hid. unfold optionalVersionName.
  rewrite (proj2 (String.eqb_neq id "") Hid). reflexivity.
Qed.

Lemma optionalDeploymentName_nonempty apiName id :
  id <> "" ->
  optionalDeploymentName apiName id
  = Names.Deployment_String (Names.Api_Deployment apiName id).
Proof.
  intros Hid. unfold optionalDeploymentName.
  rewrite (proj2 (String.eqb_neq id "") Hid). reflexivity.
Qed.

(** X11 (round trip of ids).  For an API name with valid ids, the name
    that apply stores for a version or deployment id is rewritten by
    export to that id again; and an absolute version or deployment name
    under the API, made relative by export, is stored by apply as the
    same absolute name. *)
Theorem relative_optional_round_trip apiName :
  Names.validApi apiName ->
  (forall id, Names.validID id = true ->
     relativeVersionName apiName (optionalVersionName apiName id) = inr id /\
     relativeDeploymentName apiName (optionalDeploymentName apiName id)
     = inr id) /\
  (forall version v,
     Names.ParseVersion version = inr v -> Names.Version_Api v = apiName ->
     relativeVersionName apiName version = inr (Names.VersionID v) /\
     optionalVersionName apiName (Names.VersionID v) = version) /\
  (forall deployment d,
     Names.ParseDeployment deployment = inr d ->
     Names.Deployment_Api d = apiName ->
     relativeDeploymentName apiName deployment = inr (Names.DeploymentID d) /\
     optionalDeploymentName apiName (Names.DeploymentID d) = deployment).
Proof.
  intros Hapi. split; [| split].
  - intros id Hid.
    pose proof (NamesFacts.validID_nonempty id Hid) as Hne.
    rewrite optionalVersionName_nonempty, optionalDeploymentName_nonempty
      by exact Hne.
    unfold relativeVersionName, relativeDeploymentName.
    rewrite NamesFacts.ParseVersion_render, NamesFacts.ParseDeployment_render;
      try (rewrite ?Version_Api_Version, ?Deployment_Api_Deployment; assumption).
    rewrite Version_Api_Version, Deployment_Api_Deployment, String.eqb_refl.
    split; reflexivity.
  - intros version v Hparse Hsame.
    pose proof (NamesFacts.ParseVersion_String _ _ Hparse) as Hrender.
    pose proof (NamesFacts.ParseVersion_validID _ _ Hparse) as Hid.
    split.
    + unfold relativeVersionName. rewrite <- Hrender at 1.
      rewrite Hparse, Hsame, String.eqb_refl. reflexivity.
    + rewrite optionalVersionName_nonempty
        by (apply NamesFacts.validID_nonempty; exact Hid).
      rewrite <- Hsame, Api_Version_VersionID. exact Hrender.
  - intros deployment d Hparse Hsame.
    pose proof (NamesFacts.ParseDeployment_String _ _ Hparse) as Hrender.
    pose proof (NamesFacts.ParseDeployment_validID _ _ Hparse) as Hid.
    split.
    + unfold relativeDeploymentName. rewrite <- Hrender at 1.
      rewrite Hparse, Hsame, String.eqb_refl. reflexivity.
    + rewrite optionalDeploymentName_nonempty
        by (apply NamesFacts.validID_nonempty; exact Hid).
      rewrite <- Hsame, Api_Deployment_DeploymentID. exact Hrender.
Qed.

Lemma Version_String_slashes v :
  Names.slashes (Names.Version_String v)
  = (7 + Names.slashes (Names.version_ProjectID v)
     + Names.slashes (Names.version_ApiID v)
     + Names.slashes (Names.VersionID v))%nat.
Proof.
  unfold Names.Version_String. simpl.
  repeat (rewrite NamesSpec.slashes_app; simpl). lia.
Qed.

Lemma Deployment_String_slashes d :
  Names.slashes (Names.Deployment_String d)
  = (7 + Names.slashes (Names.deployment_ProjectID d)
     + Names.slashes (Names.deployment_ApiID d)
     + Names.slashes (Names.DeploymentID d))%nat.
Proof.
  unfold Names.Deployment_String. simpl.
  repeat (rewrite NamesSpec.slashes_app; simpl). lia.
Qed.

Lemma slashes_nonempty id : (0 < Names.slashes id)%nat -> id <> "".
Proof. intros H ->. simpl in H. lia. Qed.

Section ExportFacts.

Context {registry : Registry}.

Variable yaml_Encode : Document ApiData -> error + bytes.

(** X12 (a full name used as an id).  When the id handed to
    optionalVersionName or optionalDeploymentName contains a ['/'], as a
    full resource name does, the stored name is malformed: it does not
    parse as a version or deployment name, and the export of an API that
    carries it as its recommended version or deployment fails. *)
Theorem optional_name_of_full_name apiName id :
  (0 < Names.slashes id)%nat ->
  (exists e, Names.ParseVersion (optionalVersionName apiName id) = inl e) /\
  (exists e, Names.ParseDeployment (optionalDeploymentName apiName id) = inl e)
  /\
  (forall message nested,
     RecommendedVersion message = optionalVersionName apiName id
     \/ RecommendedDeployment message = optionalDeploymentName apiName id ->
     exists err, ExportAPI yaml_Encode message nested = (inl err, [])).
Proof.
  intros Hid. pose proof (slashes_nonempty id Hid) as Hne.
  assert (Hv : exists e,
    Names.ParseVersion (optionalVersionName apiName id) = inl e).
  { rewrite optionalVersionName_nonempty by exact Hne.
    destruct (Names.ParseVersion _) as [e | v] eqn:Hparse; [eauto |].
    apply NamesFacts.ParseVersion_slashes in Hparse.
    rewrite Version_String_slashes in Hparse.
    unfold Names.Api_Version in Hparse. simpl in Hparse. lia. }
  assert (Hd : exists e,
    Names.ParseDeployment (optionalDeploymentName apiName id) = inl e).
  { rewrite optionalDeploymentName_nonempty by exact Hne.
    destruct (Names.ParseDeployment _) as [e | d] eqn:Hparse; [eauto |].
    apply NamesFacts.ParseDeployment_slashes in Hparse.
    rewrite Deployment_String_slashes in Hparse.
    unfold Names.Api_Deployment in Hparse. simpl in Hparse. lia. }
  split; [exact Hv |]. split; [exact Hd |].
  intros message nested Hrec. unfold ExportAPI, newApi.
  destruct (Names.ParseApi (Name message)) as [| exported]; [eauto |].
  assert (Hstored_v : String.eqb (optionalVersionName apiName id) "" = false).
  { rewrite optionalVersionName_nonempty by exact Hne. reflexivity. }
  assert (Hstored_d : String.eqb (optionalDeploymentName apiName id) "" = false).
  { rewrite optionalDeploymentName_nonempty by exact Hne. reflexivity. }
  destruct Hrec as [Hrec | Hrec].
  - unfold relativeVersionName. rewrite Hrec, Hstored_v.
    destruct Hv as [e ->]. eauto.
  - destruct (relativeVersionName exported (RecommendedVersion message));
      [eauto |].
    unfold relativeDeploymentName. rewrite Hrec, Hstored_d.
    destruct Hd as [e ->]. eauto.
Qed.

(** X13 (child artifacts never fail an export).  collectChildArtifacts
    returns an error exactly when the listing of the registry ends with
    that error: an artifact that does not decode is no error. *)
Theorem collectChildArtifacts_error artifactPattern err :
  (collectChildArtifacts artifactPattern).1 = inl err
  <-> (registry_ListArtifacts artifactPattern "" true).2 = Some err.
Proof.
  rewrite PatchSpec.collectChildArtifacts_eq. cbv zeta. simpl.
  destruct (registry_ListArtifacts artifactPattern "" true).2 as [e |].
  - split; intros [= ->]; reflexivity.
  - split; discriminate.
Qed.

(** The version and deployment handlers keep only documents whose
    inferred fields are unset. *)
Lemma forEach_versionHandler ms versions log r versions' log' :
  forEach versionHandler ms (versions, log) = (r, (versions', log')) ->
  Forall inferred_unset versions -> Forall inferred_unset versions'.
Proof.
  revert versions log. induction ms as [| m ms IH]; intros versions log; simpl.
  - intros [= _ <- _]. auto.
  - destruct (newApiVersion m true) as [[e | version] l]; simpl.
    + intros [= _ <- _]. auto.
    + intros Hrun Hvs. eapply IH; [exact Hrun |].
      apply Forall_app. split; [exact Hvs |].
      constructor; [| constructor]. repeat split.
Qed.

Lemma forEach_deploymentHandler ms deployments log r deployments' log' :
  forEach deploymentHandler ms (deployments, log) = (r, (deployments', log')) ->
  Forall inferred_unset deployments -> Forall inferred_unset deployments'.
Proof.
  revert deployments log.
  induction ms as [| m ms IH]; intros deployments log; simpl.
  - intros [= _ <- _]. auto.
  - destruct (newApiDeployment m true) as [[e | deployment] l]; simpl.
    + intros [= _ <- _]. auto.
    + intros Hrun Hds. eapply IH; [exact Hrun |].
      apply Forall_app. split; [exact Hds |].
      constructor; [| constructor]. repeat split.
Qed.

Lemma exported_unset m (a : Document ArtifactData) :
  exported m = Some a ->
  ApiVersion (doc_Header a) = "" /\
  md_Parent (hd_Metadata (doc_Header a)) = "".
Proof.
  unfold exported. destruct (newArtifact m) as [| artifact]; [discriminate |].
  destruct (String.eqb _ _); [discriminate |].
  intros [= <-]. split; reflexivity.
Qed.

(** X14 (the exported document).  A document built by newApi has the kind
    ["API"], the registry's API version, the API id as its name and no
    parent.  Its child lists are nil when the export is not nested.  When
    it is nested they are present, every embedded version and deployment
    has its API version, kind and parent unset, and every embedded
    artifact its API version and parent. *)
Theorem newApi_document message nested api log :
  newApi message nested = (inr api, log) ->
  (exists apiName,
     Names.ParseApi (Name message) = inr apiName /\
     doc_Header api
     = {| ApiVersion := RegistryV1; Kind := "API";
          hd_Metadata :=
            {| md_Name := Names.ApiID apiName; md_Parent := "";
               md_Labels := Labels message;
               md_Annotations := Annotations message |} |}) /\
  (nested = false ->
     ApiVersions (doc_Data api) = None /\
     ApiDeployments (doc_Data api) = None /\
     Artifacts (doc_Data api) = None /\ log = []) /\
  (nested = true ->
     exists versions deployments artifacts,
       ApiVersions (doc_Data api) = Some versions /\
       ApiDeployments (doc_Data api) = Some deployments /\
       Artifacts (doc_Data api) = Some artifacts /\
       Forall inferred_unset versions /\
       Forall inferred_unset deployments /\
       Forall (fun a => ApiVersion (doc_Header a) = "" /\
                        md_Parent (hd_Metadata (doc_Header a)) = "")
         artifacts).
Proof.
  unfold newApi.
  destruct (Names.ParseApi (Name message)) as [| apiName]; [discriminate |].
  destruct (relativeVersionName apiName (RecommendedVersion message));
    [discriminate |].
  destruct (relativeDeploymentName apiName (RecommendedDeployment message));
    [discriminate |].
  destruct nested.
  - unfold newApiChildren.
    destruct (listWith _ versionHandler _) as [r1 [versions lv]] eqn:Hv.
    unfold listWith in Hv.
    destruct (forEach versionHandler _ _) as [r1' [versions' lv']] eqn:Hv'.
    apply forEach_versionHandler in Hv'; [| constructor].
    assert (Hversions : Forall inferred_unset versions).
    { destruct r1'; injection Hv as _ <- _; exact Hv'. }
    destruct r1 as [e |]; [discriminate |].
    destruct (listWith _ deploymentHandler _) as [r2 [deployments ld]] eqn:Hd.
    unfold listWith in Hd.
    destruct (forEach deploymentHandler _ _) as [r2' [deployments' ld']] eqn:Hd'.
    apply forEach_deploymentHandler in Hd'; [| constructor].
    assert (Hdeployments : Forall inferred_unset deployments).
    { destruct r2'; injection Hd as _ <- _; exact Hd'. }
    destruct r2 as [e |]; [discriminate |].
    rewrite PatchSpec.collectChildArtifacts_eq. cbv zeta.
    destruct (registry_ListArtifacts (Names.Api_Artifact apiName "-") "" true)
      as [listed [e |]]; simpl; [discriminate |].
    intros [= <- _]. split; [eauto |]. split; [discriminate |].
    intros _. exists versions, deployments, (omap exported listed).
    repeat split; try assumption.
    apply Forall_forall. intros a (m & _ & Hm)%list_elem_of_omap.
    exact (exported_unset m a Hm).
  - intros [= <- <-]. split; [eauto |].
    split; [intros _; repeat split | discriminate].
Qed.

Lemma forEach_versionHandler_failure pre m post err l versions log :
  Forall (fun x => exists d lg, newApiVersion x true = (inr d, lg)) pre ->
  newApiVersion m true = (inl err, l) ->
  exists st, forEach versionHandler (pre ++ m :: post) (versions, log)
             = (Some err, st).
Proof.
  intros Hpre Hm. revert versions log.
  induction Hpre as [| x pre (d & lg & Hx) _ IH]; intros versions log; simpl.
  - rewrite Hm. eauto.
  - rewrite Hx. apply IH.
Qed.

(** X15 (a version that cannot be exported).  In a nested export, a listed
    version whose document cannot be built fails the export with the
    error of the builder, whatever is listed after it; the export does
    not skip it as it skips an artifact. *)
Theorem newApi_version_failure message apiName pre m post err l :
  Names.ParseApi (Name message) = inr apiName ->
  (exists recommended,
     relativeVersionName apiName (RecommendedVersion message) = inr recommended) ->
  (exists recommended,
     relativeDeploymentName apiName (RecommendedDeployment message)
     = inr recommended) ->
  (registry_ListVersions (Names.Api_Version apiName "-") "").1
  = pre ++ m :: post ->
  Forall (fun x => exists d lg, newApiVersion x true = (inr d, lg)) pre ->
  newApiVersion m true = (inl err, l) ->
  exists log,
    newApi message true = (inl err, log) /\
    ExportAPI yaml_Encode message true = (inl err, log).
Proof.
  intros Hparse [rv Hrv] [rd Hrd] Hlisted Hpre Hm.
  unfold ExportAPI, newApi. rewrite Hparse, Hrv, Hrd.
  unfold newApiChildren, listWith. rewrite Hlisted.
  destruct (forEach_versionHandler_failure pre m post err l [] [] Hpre Hm)
    as [[versions log] ->].
  exists log. split; reflexivity.
Qed.

End ExportFacts.

Lemma relativeVersionName_same apiName version v :
  Names.ParseVersion version = inr v -> Names.Version_Api v = apiName ->
  relativeVersionName apiName version = inr (Names.VersionID v) /\
  optionalVersionName apiName (Names.VersionID v) = version.
Proof.
  intros Hparse Hsame.
  pose proof (NamesFacts.ParseVersion_String _ _ Hparse) as Hrender.
  pose proof (NamesFacts.ParseVersion_validID _ _ Hparse) as Hid.
  split.
  - unfold relativeVersionName. rewrite <- Hrender at 1.
    rewrite Hparse, Hsame, String.eqb_refl. reflexivity.
  - rewrite optionalVersionName_nonempty
      by (apply NamesFacts.validID_nonempty; exact Hid).
    rewrite <- Hsame, Api_Version_VersionID. exact Hrender.
Qed.

Lemma relativeDeploymentName_same apiName deployment d :
  Names.ParseDeployment deployment = inr d ->
  Names.Deployment_Api d = apiName ->
  relativeDeploymentName apiName deployment = inr (Names.DeploymentID d) /\
  optionalDeploymentName apiName (Names.DeploymentID d) = deployment.
Proof.
  intros Hparse Hsame.
  pose proof (NamesFacts.ParseDeployment_String _ _ Hparse) as Hrender.
  pose proof (NamesFacts.ParseDeployment_validID _ _ Hparse) as Hid.
  split.
  - unfold relativeDeploymentName. rewrite <- Hrender at 1.
    rewrite Hparse, Hsame, String.eqb_refl. reflexivity.
  - rewrite optionalDeploymentName_nonempty
      by (apply NamesFacts.validID_nonempty; exact Hid).
    rewrite <- Hsame, Api_Deployment_DeploymentID. exact Hrender.
Qed.

Section ApplyFacts.

Context {registry : Registry} {applier : Applier}.

Lemma applyAll_performAll {D : Type}
  (apply : D -> string -> RegistryState -> option error * RegistryState)
  (record : D -> string -> call) patches parent st calls :
  (forall patch st, perform (record patch parent) st = apply patch parent st) ->
  applyAll apply record patches parent st calls
  = performAll ((fun patch => record patch parent) <$> patches) st calls.
Proof.
  intros Hperform. revert st calls.
  induction patches as [| patch rest IH]; intros st calls; simpl;
    [reflexivity |].
  rewrite Hperform.
  destruct (apply patch parent st) as [[err |] st']; [reflexivity | apply IH].
Qed.

Lemma performAll_app cs1 cs2 st calls :
  performAll (cs1 ++ cs2) st calls
  = match performAll cs1 st calls with
    | (Some err, r) => (Some err, r)
    | (None, (st', calls')) => performAll cs2 st' calls'
    end.
Proof.
  revert st calls. induction cs1 as [| c cs1 IH]; intros st calls; simpl;
    [reflexivity |].
  destruct (perform c st) as [[err |] st']; [reflexivity | apply IH].
Qed.

(** What a sequence of calls leaves in the record: the calls made are a
    prefix of the calls asked for, all of them when no call fails, and
    otherwise they end with the call that returned the error. *)
Lemma performAll_calls cs st calls r st' calls' :
  performAll cs st calls = (r, (st', calls')) ->
  exists made,
    calls' = calls ++ made /\ made `prefix_of` cs /\
    (r = None -> made = cs) /\
    (forall err, r = Some err ->
       exists before c stc, made = before ++ [c] /\ (perform c stc).1 = Some err).
Proof.
  revert st calls. induction cs as [| c cs IH]; intros st calls; simpl.
  - intros [= <- <- <-]. exists []. rewrite app_nil_r.
    repeat split; [| discriminate]. reflexivity.
  - destruct (perform c st) as [[err |] st1] eqn:Hc.
    + intros [= <- <- <-]. exists [c].
      split; [reflexivity |]. split; [exists cs; reflexivity |].
      split; [discriminate |]. intros err' [= <-].
      exists [], c, st. rewrite Hc. split; reflexivity.
    + intros Hrest. apply IH in Hrest as (made & -> & Hprefix & Hall & Hlast).
      exists (c :: made). split; [rewrite <- app_assoc; reflexivity |].
      split; [apply prefix_cons; exact Hprefix |].
      split; [intros Hr; rewrite (Hall Hr); reflexivity |].
      intros err Hr. destruct (Hlast err Hr) as (before & c' & stc & -> & Hc').
      exists (c :: before), c', stc. split; [reflexivity | exact Hc'].
Qed.

Lemma applyApiPatchBytes_eq bytes parent st api projectName :
  yaml_Unmarshal bytes = inr api ->
  Names.ParseProjectWithLocation parent = inr projectName ->
  applyApiPatchBytes bytes parent st
  = performAll (plannedCalls api projectName) st [].
Proof.
  intros Hyaml Hparent. unfold applyApiPatchBytes, plannedCalls.
  rewrite Hyaml, Hparent. cbv zeta. fold (updateRequest api projectName).
  cbn [performAll perform].
  destruct (client_UpdateApi (updateRequest api projectName) st)
    as [[err |] st1]; [reflexivity |].
  rewrite performAll_app, applyAll_performAll by reflexivity.
  simpl app.
  destruct (performAll _ st1 [CallUpdateApi (updateRequest api projectName)])
    as [[err |] [st2 calls2]]; [reflexivity |].
  rewrite performAll_app, applyAll_performAll by reflexivity.
  destruct (performAll _ st2 calls2) as [[err |] [st3 calls3]]; [reflexivity |].
  rewrite applyAll_performAll by reflexivity. reflexivity.
Qed.

(** X16 (order of the calls, and abort).  For a document that decodes and a
    parent that parses, applyApiPatchBytes performs the calls the document
    asks for (the API update first, then the versions, the deployments
    and the artifacts in document order) one after the other and stops at
    the first that fails: the calls made are a prefix of the calls asked
    for, all of them when the result is nil, and otherwise the last call
    made is the one that returned the error. *)
Theorem applyApiPatchBytes_calls bytes parent st api projectName :
  yaml_Unmarshal bytes = inr api ->
  Names.ParseProjectWithLocation parent = inr projectName ->
  applyApiPatchBytes bytes parent st
  = performAll (plannedCalls api projectName) st [] /\
  exists r st' made,
    applyApiPatchBytes bytes parent st = (r, (st', made)) /\
    made `prefix_of` plannedCalls api projectName /\
    (exists rest, made = CallUpdateApi (updateRequest api projectName) :: rest) /\
    (r = None -> made = plannedCalls api projectName) /\
    (forall err, r = Some err ->
       exists before c stc, made = before ++ [c] /\ (perform c stc).1 = Some err).
Proof.
  intros Hyaml Hparent.
  pose proof (applyApiPatchBytes_eq bytes parent st api projectName Hyaml Hparent)
    as Heq.
  split; [exact Heq |]. rewrite Heq.
  destruct (performAll (plannedCalls api projectName) st [])
    as [r [st' made]] eqn:Hrun.
  exists r, st', made. split; [reflexivity |].
  pose proof Hrun as Hfirst.
  apply performAll_calls in Hrun as (made' & -> & Hprefix & Hall & Hlast).
  simpl. repeat split; try assumption.
  unfold plannedCalls in Hfirst. cbn [performAll] in Hfirst.
  destruct (perform _ st) as [[err |] st1].
  - injection Hfirst as _ _ <-. eauto.
  - apply performAll_calls in Hfirst as (rest & Hrest & _).
    simpl in Hrest. rewrite Hrest. eauto.
Qed.

Lemma newApi_fields message nested api log apiName :
  newApi message nested = (inr api, log) ->
  Names.ParseApi (Name message) = inr apiName ->
  md_Name (hd_Metadata (doc_Header api)) = Names.ApiID apiName /\
  md_Labels (hd_Metadata (doc_Header api)) = Labels message /\
  md_Annotations (hd_Metadata (doc_Header api)) = Annotations message /\
  data_DisplayName (doc_Data api) = DisplayName message /\
  data_Description (doc_Data api) = Description message /\
  data_Availability (doc_Data api) = Availability message /\
  relativeVersionName apiName (RecommendedVersion message)
  = inr (data_RecommendedVersion (doc_Data api)) /\
  relativeDeploymentName apiName (RecommendedDeployment message)
  = inr (data_RecommendedDeployment (doc_Data api)).
Proof.
  unfold newApi. intros Hnew Hparse. rewrite Hparse in Hnew.
  destruct (relativeVersionName apiName (RecommendedVersion message));
    [discriminate |].
  destruct (relativeDeploymentName apiName (RecommendedDeployment message));
    [discriminate |].
  destruct nested.
  - destruct (newApiChildren apiName) as [[e | [[vs ds] arts]] l];
      [discriminate |].
    injection Hnew as <- _. repeat split.
  - injection Hnew as <- _. repeat split.
Qed.

(** X17 (round trip of an API).  Applying an exported document under the
    project of the exported API sends the registry the API it was
    exported from, with [allow_missing] set: the same name, display
    name, description, availability, labels, annotations, and the same
    recommended version and deployment, provided each of these two is
    empty or names a version or deployment of the exported API. *)
Theorem export_apply_round_trip message nested api log bytes apiName st :
  newApi message nested = (inr api, log) ->
  yaml_Unmarshal bytes = inr api ->
  Names.ParseApi (Name message) = inr apiName ->
  (RecommendedVersion message = ""
   \/ exists v, Names.ParseVersion (RecommendedVersion message) = inr v /\
                Names.Version_Api v = apiName) ->
  (RecommendedDeployment message = ""
   \/ exists d, Names.ParseDeployment (RecommendedDeployment message) = inr d /\
                Names.Deployment_Api d = apiName) ->
  exists r st' rest,
    applyApiPatchBytes bytes
      (Names.Project_String {| Names.ProjectID := Names.api_ProjectID apiName |})
      st
    = (r, (st', CallUpdateApi {| req_Api := message; req_AllowMissing := true |}
                :: rest)).
Proof.
  intros Hnew Hyaml Hparse Hversion Hdeployment.
  destruct (newApi_fields _ _ _ _ _ Hnew Hparse)
    as (Hname & Hlabels & Hannotations & Hdisplay & Hdescription
        & Havailability & Hrv & Hrd).
  pose proof (NamesSpec.ParseApi_valid _ _ Hparse) as [Hp Ha].
  set (projectName := {| Names.ProjectID := Names.api_ProjectID apiName |}).
  assert (Hreq : updateRequest api projectName
                 = {| req_Api := message; req_AllowMissing := true |}).
  { unfold updateRequest. rewrite Hname, Hlabels, Hannotations, Hdisplay,
      Hdescription, Havailability.
    replace (Names.Project_Api projectName (Names.ApiID apiName)) with apiName
      by (destruct apiName; reflexivity).
    rewrite (NamesFacts.ParseApi_String _ _ Hparse).
    assert (Hv : optionalVersionName apiName
                   (data_RecommendedVersion (doc_Data api))
                 = RecommendedVersion message).
    { destruct Hversion as [Hempty | (v & Hv & Hsame)].
      - rewrite Hempty in Hrv |- *. injection Hrv as <-. reflexivity.
      - destruct (relativeVersionName_same _ _ _ Hv Hsame) as [Hrel Hopt].
        rewrite Hrel in Hrv. injection Hrv as <-. exact Hopt. }
    assert (Hd : optionalDeploymentName apiName
                   (data_RecommendedDeployment (doc_Data api))
                 = RecommendedDeployment message).
    { destruct Hdeployment as [Hempty | (d & Hd & Hsame)].
      - rewrite Hempty in Hrd |- *. injection Hrd as <-. reflexivity.
      - destruct (relativeDeploymentName_same _ _ _ Hd Hsame) as [Hrel Hopt].
        rewrite Hrel in Hrd. injection Hrd as <-. exact Hopt. }
    rewrite Hv, Hd. destruct message; reflexivity. }
  rewrite (applyApiPatchBytes_eq bytes _ st api projectName Hyaml
             (NamesFacts.ParseProjectWithLocation_render projectName Hp)).
  unfold plannedCalls. rewrite Hreq. cbn [performAll].
  destruct (perform _ st) as [[err |] st1].
  - eauto.
  - destruct (performAll _ st1 _) as [r [st' calls]] eqn:Hrun.
    apply performAll_calls in Hrun as (rest & -> & _).
    simpl. eauto.
Qed.

End ApplyFacts.

End PatchFacts.

(** * More on the scoring engine *)

Module ScoringFacts.

Import Scoring.

(** A run that ends without an effect. *)
Ltac no_effect :=
  simpl; split; [lia | split; intros ? Hin; inversion Hin].

Section Facts.

Context {pk : Packages} {client : artifactClient names_Artifact}.

Lemma processScoreType_header definition scoreValue project score :
  processScoreType definition scoreValue project = inr score ->
  score_id score = scoreID (def_id definition) /\
  score_kind score = "Score" /\
  score_definition_name score = project +:+ "/artifacts/" +:+ def_id definition.
Proof.
  unfold processScoreType. intros H.
  repeat case_match; simplify_eq; repeat split.
Qed.

(** X1 (type check of the result).  processScoreType fails exactly when
    the dynamic type of the result does not fit the type of the
    definition: a result that is neither int64 nor float64 for an integer
    or percent definition, a result that is not a bool for a boolean
    definition.  A definition without a type never fails. *)
Theorem processScoreType_type_mismatch definition scoreValue project :
  (exists e, processScoreType definition scoreValue project = inl e) <->
  (((exists i, def_type definition = TypeInteger i)
    \/ (exists p, def_type definition = TypePercent p)) /\
   (forall z, scoreValue <> VInt64 z) /\ (forall f, scoreValue <> VFloat64 f))
  \/ ((exists b, def_type definition = TypeBoolean b) /\
      forall b', scoreValue <> VBool b').
Proof.
  unfold processScoreType.
  destruct (def_type definition) as [i | p | b |]; destruct scoreValue;
    simpl; repeat case_match; split;
    try (intros [e He]; discriminate He);
    try (intros _; eexists; reflexivity);
    try (intros _; left; split;
         [solve [eauto] | split; intros; discriminate]);
    try (intros _; right; split; [solve [eauto] | intros; discriminate]);
    intros [([[? ?] | [? ?]] & Hint & Hfloat) | ([? ?] & Hbool)];
    try discriminate; exfalso;
    first [eapply Hint; reflexivity | eapply Hfloat; reflexivity
          | eapply Hbool; reflexivity].
Qed.

(** X2 (what a run does).  A run of CalculateScore has at most one effect.
    It uploads only when it is no dry run, and then under the name of the
    score artifact it fetched, [<resource>/artifacts/score-<definition
    id>], with the mime type of a Score; it prints only on a dry run, and
    then returns nil. *)
Theorem CalculateScore_effects defArtifact resource dryRun :
  (length (CalculateScore defArtifact resource dryRun).2 <= 1)%nat /\
  (forall a,
     EffSetArtifact a ∈ (CalculateScore defArtifact resource dryRun).2 ->
     dryRun = false /\
     art_mime_type a = patch_MimeTypeForKind "Score" /\
     exists definition,
       proto_Unmarshal (art_contents defArtifact) = inr definition /\
       art_name a
       = rn_string resource +:+ "/artifacts/" +:+ scoreID (def_id definition)) /\
  (forall s,
     EffPrintMessage s ∈ (CalculateScore defArtifact resource dryRun).2 ->
     dryRun = true /\ (CalculateScore defArtifact resource dryRun).1 = None).
Proof.
  unfold CalculateScore.
  destruct (proto_Unmarshal (art_contents defArtifact)) as [e | definition];
    [no_effect |].
  destruct (decideTakeAction _ _ _) as [e | [scoreArtifact takeAction]];
    [no_effect |].
  destruct (sr_err _) as [e |];
    [no_effect |].
  destruct (sr_needsUpdate _);
    [| no_effect].
  destruct (processScoreType _ _ _) as [e | score] eqn:Hscore;
    [no_effect |].
  apply processScoreType_header in Hscore as (Hid & _).
  destruct dryRun.
  - simpl. split; [lia |]. split; intros x Hx.
    + apply list_elem_of_singleton in Hx. discriminate Hx.
    + split; reflexivity.
  - unfold uploadScore.
    destruct (proto_Marshal score) as [e | artifactBytes];
      [no_effect |].
    destruct (SetArtifact _) as [e |]; simpl; (split; [lia |]);
      (split; intros x Hx; apply list_elem_of_singleton in Hx;
       [injection Hx as -> | discriminate Hx]);
      simpl; rewrite Hid; eauto.
Qed.

(** X3 (an unparsable score name).  When the name of the score artifact does
    not parse, CalculateScore stops with the fetch error and no effect,
    whatever the parse error is: the artifact is not taken to be
    absent, even if the parse error carries the status NotFound. *)
Theorem CalculateScore_unparsable_name defArtifact resource dryRun definition e :
  proto_Unmarshal (art_contents defArtifact) = inr definition ->
  names_ParseArtifact
    (rn_string resource +:+ "/artifacts/" +:+ scoreID (def_id definition))
  = inl e ->
  CalculateScore defArtifact resource dryRun
  = (Some (ErrFetchArtifact
             (rn_string resource +:+ "/artifacts/" +:+ scoreID (def_id definition))
             (ErrInvalidArtifactPattern
                (rn_string resource +:+ "/artifacts/" +:+ scoreID (def_id definition))
                e)), []).
Proof.
  intros Hdef Hparse. unfold CalculateScore, getArtifact.
  rewrite Hdef, Hparse. reflexivity.
Qed.

Lemma Add_After_false t d u : t + d <= u -> Add_After t d u = false.
Proof. unfold Add_After. intros H. apply Z.ltb_ge. exact H. Qed.

Lemma Add_After_true t d u : u < t + d -> Add_After t d u = true.
Proof. unfold Add_After. intros H. apply Z.ltb_lt. exact H. Qed.

(** X4 (an up-to-date score).  For a definition with a score formula: when
    the score artifact exists and neither the definition nor the artifact
    of the formula was updated less than the threshold before it (or
    later), CalculateScore has no effect, in a dry run or not; it
    returns nil when the expression evaluates. *)
Theorem CalculateScore_up_to_date defArtifact resource dryRun definition f
  scoreArtifact extended artifact :
  proto_Unmarshal (art_contents defArtifact) = inr definition ->
  def_formula definition = FormulaScore f ->
  getArtifact
    (rn_string resource +:+ "/artifacts/" +:+ scoreID (def_id definition)) false
  = inr scoreArtifact ->
  art_update_time defArtifact + patterns_ResourceUpdateThreshold
  <= art_update_time scoreArtifact ->
  patterns_SubstituteReferenceEntity (artifact_pattern f) resource
  = inr extended ->
  getArtifact extended true = inr artifact ->
  art_update_time artifact + patterns_ResourceUpdateThreshold
  <= art_update_time scoreArtifact ->
  (CalculateScore defArtifact resource dryRun).2 = [] /\
  (forall m v,
     score_expression f <> "" ->
     getMap (art_contents artifact) (art_mime_type artifact) = inr m ->
     evaluateScoreExpression (score_expression f) m = inr v ->
     CalculateScore defArtifact resource dryRun = (None, [])).
Proof.
  intros Hdef Hformula Hscore Hnewer Hsub Hart Hnewer'.
  unfold CalculateScore. rewrite Hdef, Hscore.
  rewrite ScoringSpec.decideTakeAction_present.
  replace (art_update_time scoreArtifact
           <? art_update_time defArtifact + patterns_ResourceUpdateThreshold)
    with false by (symmetry; apply Z.ltb_ge; exact Hnewer).
  unfold processFormula, processScoreFormula.
  rewrite Hformula, Hsub, Hart. simpl GetUpdateTime.
  rewrite (Add_After_false _ _ _ Hnewer'). simpl orb.
  split.
  - destruct (is_empty (score_expression f)); [reflexivity |].
    destruct (getMap _ _); [reflexivity |].
    destruct (evaluateScoreExpression _ _); reflexivity.
  - intros m v Hexpr Hm Hv.
    apply ScoringSpec.is_empty_false in Hexpr.
    rewrite Hexpr, Hm, Hv. reflexivity.
Qed.

(** X5 (a stale score).  For a definition with a score formula: when the
    score artifact exists but the definition or the artifact of the
    formula was updated less than the threshold before it (or later), and
    the expression evaluates to a value of the right type, a dry run
    prints the new score and does nothing else, and any other run calls
    SetArtifact once, on the very name of the score artifact it fetched,
    and returns the error of that call, if any. *)
Theorem CalculateScore_stale defArtifact resource definition f
  scoreArtifact extended artifact m v score :
  proto_Unmarshal (art_contents defArtifact) = inr definition ->
  def_formula definition = FormulaScore f ->
  getArtifact
    (rn_string resource +:+ "/artifacts/" +:+ scoreID (def_id definition)) false
  = inr scoreArtifact ->
  patterns_SubstituteReferenceEntity (artifact_pattern f) resource
  = inr extended ->
  score_expression f <> "" ->
  getArtifact extended true = inr artifact ->
  art_update_time scoreArtifact
  < art_update_time defArtifact + patterns_ResourceUpdateThreshold
  \/ art_update_time scoreArtifact
     < art_update_time artifact + patterns_ResourceUpdateThreshold ->
  getMap (art_contents artifact) (art_mime_type artifact) = inr m ->
  evaluateScoreExpression (score_expression f) m = inr v ->
  processScoreType definition v (rn_project resource +:+ "/locations/global")
  = inr score ->
  CalculateScore defArtifact resource true = (None, [EffPrintMessage score]) /\
  (forall artifactBytes,
     proto_Marshal score = inr artifactBytes ->
     let uploaded :=
       {| art_name :=
            rn_string resource +:+ "/artifacts/" +:+ scoreID (def_id definition);
          art_mime_type := patch_MimeTypeForKind "Score";
          art_contents := artifactBytes;
          art_update_time := 0 |} in
     CalculateScore defArtifact resource false
     = (ErrSaveArtifact (art_name uploaded) <$> SetArtifact uploaded,
        [EffSetArtifact uploaded])).
Proof.
  intros Hdef Hformula Hscore Hsub Hexpr Hart Hstale Hm Hv Htype.
  apply ScoringSpec.is_empty_false in Hexpr.
  pose proof (processScoreType_header _ _ _ _ Htype) as (Hid & _).
  assert (Hresult : forall takeAction,
    takeAction
    || Add_After (art_update_time artifact) patterns_ResourceUpdateThreshold
         (art_update_time scoreArtifact) = true ->
    processFormula definition resource (Some scoreArtifact) takeAction
    = {| sr_value := v; sr_needsUpdate := true; sr_err := None |}).
  { intros takeAction Hupdate. unfold processFormula, processScoreFormula.
    rewrite Hformula, Hsub, Hexpr, Hart, Hm, Hv. simpl GetUpdateTime.
    rewrite Hupdate. reflexivity. }
  assert (Hrun : forall dryRun,
    CalculateScore defArtifact resource dryRun
    = if dryRun then (None, [EffPrintMessage score])
      else uploadScore resource score).
  { intros dryRun. unfold CalculateScore. rewrite Hdef, Hscore.
    rewrite ScoringSpec.decideTakeAction_present.
    rewrite Hresult; [simpl; rewrite Htype; reflexivity |].
    destruct Hstale as [Hd | Ha].
    - apply Z.ltb_lt in Hd. rewrite Hd. reflexivity.
    - rewrite (Add_After_true _ _ _ Ha). apply orb_true_r. }
  split; [apply (Hrun true) |].
  intros artifactBytes Hbytes uploaded. rewrite (Hrun false).
  unfold uploadScore. rewrite Hbytes. subst uploaded. rewrite Hid.
  destruct (SetArtifact _); reflexivity.
Qed.

(** X7 (an up-to-date rollup).  For a definition with a rollup formula:
    when the score artifact exists, the definition was not updated
    less than the threshold before it (or later), every inner formula
    passes and none of them needs an update, CalculateScore returns nil
    and has no effect; the rollup expression is not evaluated. *)
Theorem CalculateScore_rollup_up_to_date defArtifact resource dryRun definition
  r scoreArtifact :
  proto_Unmarshal (art_contents defArtifact) = inr definition ->
  def_formula definition = FormulaRollup r ->
  getArtifact
    (rn_string resource +:+ "/artifacts/" +:+ scoreID (def_id definition)) false
  = inr scoreArtifact ->
  art_update_time defArtifact + patterns_ResourceUpdateThreshold
  <= art_update_time scoreArtifact ->
  score_formulas r <> [] -> rollup_expression r <> "" ->
  Forall (passes resource (Some scoreArtifact) false) (score_formulas r) ->
  Forall (fun f =>
            sr_needsUpdate
              (processScoreFormula f resource (Some scoreArtifact) false)
            = false) (score_formulas r) ->
  CalculateScore defArtifact resource dryRun = (None, []).
Proof.
  intros Hdef Hformula Hscore Hnewer Hfs Hexpr Hpass Hfresh.
  unfold CalculateScore. rewrite Hdef, Hscore.
  rewrite ScoringSpec.decideTakeAction_present.
  replace (art_update_time scoreArtifact
           <? art_update_time defArtifact + patterns_ResourceUpdateThreshold)
    with false by (symmetry; apply Z.ltb_ge; exact Hnewer).
  unfold processFormula, processRollUpFormula. rewrite Hformula.
  destruct (score_formulas r) as [| f0 fs] eqn:Efs; [congruence |].
  simpl length. simpl Nat.eqb. cbv iota.
  apply ScoringSpec.is_empty_false in Hexpr. rewrite Hexpr.
  rewrite (ScoringSpec.rollUpLoop_passing resource (Some scoreArtifact) false
             (f0 :: fs) ∅ false Hpass).
  replace (existsb _ (f0 :: fs)) with false; [reflexivity |].
  symmetry. apply not_true_is_false. intros Hex.
  apply existsb_exists in Hex as (f & Hin & Hf).
  rewrite Forall_forall in Hfresh.
  apply list_elem_of_In in Hin. rewrite (Hfresh f Hin) in Hf. discriminate.
Qed.

(** X8 (results that are not finite).  For a percent definition, an
    infinite float64 result gives the severity ALERT, and a NaN result is
    stored as NaN with the default severity: it is neither out of range
    nor in the range of any threshold. *)
Theorem processScoreType_percent_not_finite definition p project :
  def_type definition = TypePercent p ->
  (forall s, exists score,
     processScoreType definition (VFloat64 (S754_infinity s)) project
     = inr score /\
     score_value score = PercentValue (S754_infinity s) /\
     score_severity score = ALERT) /\
  (exists score,
     processScoreType definition (VFloat64 S754_nan) project = inr score /\
     score_value score = PercentValue S754_nan /\
     score_severity score = SEVERITY_UNSPECIFIED).
Proof.
  intros Hty. unfold processScoreType. rewrite Hty. simpl. split.
  - intros [|]; eexists; repeat split.
  - eexists. split; [reflexivity |]. split; [reflexivity |]. simpl.
    induction (percent_thresholds p) as [| t ts IH]; simpl; [reflexivity |].
    replace (SFleb (float32_of_int (nt_range_min t)) S754_nan) with false;
      [exact IH |].
    unfold SFleb, SFcompare. destruct (float32_of_int (nt_range_min t));
      reflexivity.
Qed.

(** X6 (the first score).  For a definition with a score formula: when the
    score artifact does not exist yet (the fetch ends with NotFound) and
    the expression evaluates to a value of the right type, a dry run
    prints the score, and any other run calls SetArtifact once, on the
    name it looked up, and returns the error of that call, if any. *)
Theorem CalculateScore_first_score defArtifact resource definition f e
  extended artifact m v score :
  proto_Unmarshal (art_contents defArtifact) = inr definition ->
  def_formula definition = FormulaScore f ->
  getArtifact
    (rn_string resource +:+ "/artifacts/" +:+ scoreID (def_id definition)) false
  = inl e ->
  status_Code e = CodeNotFound ->
  patterns_SubstituteReferenceEntity (artifact_pattern f) resource
  = inr extended ->
  score_expression f <> "" ->
  getArtifact extended true = inr artifact ->
  getMap (art_contents artifact) (art_mime_type artifact) = inr m ->
  evaluateScoreExpression (score_expression f) m = inr v ->
  processScoreType definition v (rn_project resource +:+ "/locations/global")
  = inr score ->
  CalculateScore defArtifact resource true = (None, [EffPrintMessage score]) /\
  (forall artifactBytes,
     proto_Marshal score = inr artifactBytes ->
     let uploaded :=
       {| art_name :=
            rn_string resource +:+ "/artifacts/" +:+ scoreID (def_id definition);
          art_mime_type := patch_MimeTypeForKind "Score";
          art_contents := artifactBytes;
          art_update_time := 0 |} in
     CalculateScore defArtifact resource false
     = (ErrSaveArtifact (art_name uploaded) <$> SetArtifact uploaded,
        [EffSetArtifact uploaded])).
Proof.
  intros Hdef Hformula Hscore Hcode Hsub Hexpr Hart Hm Hv Htype.
  apply ScoringSpec.is_empty_false in Hexpr.
  pose proof (processScoreType_header _ _ _ _ Htype) as (Hid & _).
  assert (Hrun : forall dryRun,
    CalculateScore defArtifact resource dryRun
    = if dryRun then (None, [EffPrintMessage score])
      else uploadScore resource score).
  { intros dryRun. unfold CalculateScore. rewrite Hdef, Hscore.
    rewrite ScoringSpec.decideTakeAction_absent by exact Hcode.
    unfold processFormula, processScoreFormula.
    rewrite Hformula, Hsub, Hexpr, Hart, Hm, Hv. simpl. rewrite Htype.
    reflexivity. }
  split; [apply (Hrun true) |].
  intros artifactBytes Hbytes uploaded. rewrite (Hrun false).
  unfold uploadScore. rewrite Hbytes. subst uploaded. rewrite Hid.
  destruct (SetArtifact _); reflexivity.
Qed.

(** X9 (the display of a boolean score).  For a boolean definition and a
    boolean result, the Score holds the result, and as its display value
    the text the definition configures for that result or, when that
    text is empty, ["true"] or ["false"]: the display value is never
    empty. *)
Theorem processScoreType_boolean_display definition b boolVal project :
  def_type definition = TypeBoolean b ->
  exists score display,
    processScoreType definition (VBool boolVal) project = inr score /\
    score_value score = BooleanValue boolVal display /\
    display <> "" /\
    display
    = (let configured := if boolVal then display_true b else display_false b in
       if is_empty configured then FormatBool boolVal else configured).
Proof.
  intros Hty. unfold processScoreType. rewrite Hty.
  eexists. eexists. split; [reflexivity |]. split; [reflexivity |].
  destruct boolVal; simpl.
  - destruct (display_true b) eqn:E; simpl; split;
      first [discriminate | reflexivity].
  - destruct (display_false b) eqn:E; simpl; split;
      first [discriminate | reflexivity].
Qed.

End Facts.

Section FetchFacts.

Context {pk : Packages} {listing : artifactListing names_Artifact}.

Lemma eachArtifact_fetchHandler listed defArtifacts :
  eachArtifact fetchHandler listed defArtifacts
  = (None,
     defArtifacts
     ++ List.filter
          (fun a => match proto_Unmarshal (art_contents a) with
                    | inr _ => true
                    | inl _ => false
                    end) listed).
Proof.
  revert defArtifacts.
  induction listed as [| a listed IH]; intros defArtifacts; simpl.
  - rewrite app_nil_r. reflexivity.
  - unfold fetchHandler at 1.
    destruct (proto_Unmarshal (art_contents a)); rewrite IH;
      [reflexivity | rewrite <- app_assoc; reflexivity].
Qed.

(** X10 (the definitions fetched).  For a project whose artifact pattern
    parses, FetchScoreDefinitions fails exactly when the listing does,
    with its error; otherwise it returns, in listing order, the listed
    artifacts whose contents decode as a score definition.  So
    CalculateScore decodes every artifact it returns. *)
Theorem FetchScoreDefinitions_decodable project pattern :
  names_ParseArtifact (project +:+ "/locations/global/artifacts/-")
  = inr pattern ->
  let listed :=
    ListArtifacts pattern
      ("mime_type == " +:+ fmt_q (patch_MimeTypeForKind "ScoreDefinition"))
      true in
  FetchScoreDefinitions project
  = match listed.2 with
    | Some err => inl err
    | None =>
        inr (List.filter
               (fun a => match proto_Unmarshal (art_contents a) with
                         | inr _ => true
                         | inl _ => false
                         end) listed.1)
    end /\
  (forall defArtifacts a,
     FetchScoreDefinitions project = inr defArtifacts -> a ∈ defArtifacts ->
     a ∈ listed.1 /\
     exists definition, proto_Unmarshal (art_contents a) = inr definition).
Proof.
  intros Hparse listed.
  assert (Heq : FetchScoreDefinitions project
    = match listed.2 with
      | Some err => inl err
      | None =>
          inr (List.filter
                 (fun a => match proto_Unmarshal (art_contents a) with
                           | inr _ => true
                           | inl _ => false
                           end) listed.1)
      end).
  { unfold FetchScoreDefinitions. rewrite Hparse. cbv zeta.
    fold listed. rewrite eachArtifact_fetchHandler. reflexivity. }
  split; [exact Heq |].
  intros defArtifacts a Hfetch Ha. rewrite Heq in Hfetch.
  destruct listed.2; [discriminate |]. injection Hfetch as <-.
  apply list_elem_of_In, filter_In in Ha as [Hin Hdec].
  split; [apply list_elem_of_In; exact Hin |].
  destruct (proto_Unmarshal (art_contents a)); [discriminate | eauto].
Qed.

End FetchFacts.

End ScoringFacts.

(** * The paging of the generated admin client *)

Module GapicFacts.

Import Gapic.

Lemma int32_small_nonneg v : 0 <= v <= 2 ^ 31 - 1 -> int32 v = v.
Proof. intros Hv. unfold int32. rewrite Z.mod_small; lia. Qed.

(** X18 (page size).  The paging step of ListProjects never changes the
    filter or the order of the request, and writes a page token only when
    it is not empty.  For a page size that is not negative the request
    gets the page size itself, capped at the largest int32, and a page
    size of zero leaves the request's page size as it is. *)
Theorem setPaging_page_size pageSize pageToken req :
  0 <= pageSize ->
  lp_PageSize (setPaging pageSize pageToken req)
  = (if pageSize =? 0 then lp_PageSize req else Z.min pageSize MaxInt32) /\
  lp_PageToken (setPaging pageSize pageToken req)
  = (if String.eqb pageToken "" then lp_PageToken req else pageToken) /\
  lp_Filter (setPaging pageSize pageToken req) = lp_Filter req /\
  lp_OrderBy (setPaging pageSize pageToken req) = lp_OrderBy req.
Proof.
  intros Hsize. unfold setPaging, MaxInt32.
  destruct (String.eqb pageToken ""); simpl;
    destruct (pageSize >? 2 ^ 31 - 1) eqn:Hbig; simpl;
    destruct (pageSize =? 0) eqn:Hzero; simpl;
    repeat split; try lia;
    rewrite int32_small_nonneg by lia; lia.
Qed.

End GapicFacts.

(** * The activate command *)

Module ConfigurationsFacts.

Import Configurations.

Section ActivateFacts.

Context {config : Config}.

(** X19 (activation is guarded).  On a non-empty argument list, as
    [cobra.ExactArgs(1)] hands it over, the function [RunE] of the
    activate command returns, and leaves both silence fields of the
    command set.  It returns nil only when its first argument is a valid
    name of a readable configuration that config.Activate accepts, and
    then it prints one line.  When it returns an error it prints nothing,
    and the configuration directory is left as it was unless
    config.Activate itself was reached. *)
Theorem RunE_guarded cmd args dir :
  args <> [] ->
  exists outcome,
    RunE cmd args dir = Some outcome /\
    SilenceUsage (command outcome) = true /\
    SilenceErrors (command outcome) = true /\
    (returned outcome = None ->
       exists name rest c,
         args = name :: rest /\ ValidateName name = None /\
         Read name dir = inr c /\
         Activate name dir = (None, directory outcome) /\
         printed outcome
         = ["Activated " +:+ fmt_q name +:+ "." +:+ String "010" ""]) /\
    (returned outcome <> None -> printed outcome = []) /\
    (directory outcome <> dir ->
       exists name rest c,
         args = name :: rest /\ ValidateName name = None /\
         Read name dir = inr c /\
         (Activate name dir).2 = directory outcome).
Proof.
  intros Hargs. unfold RunE.
  destruct args as [| name rest]; [contradiction |].
  destruct (ValidateName name) as [e |] eqn:Hvalid.
  - eexists. split; [reflexivity |]. simpl. repeat split; congruence.
  - destruct (Read name dir) as [e | c] eqn:Hread.
    + eexists. split; [reflexivity |]. simpl. repeat split; congruence.
    + destruct (Activate name dir) as [[e |] d] eqn:Hactivate;
        (eexists; split; [reflexivity |]); simpl;
        (split; [reflexivity |]); (split; [reflexivity |]);
        (split; [| split]); try congruence;
        intros _; exists name, rest, c; rewrite ?Hactivate;
        repeat split; assumption.
Qed.

End ActivateFacts.

End ConfigurationsFacts.

(** * The properties on concrete runs *)

Module Runs.

(** Export of an id that apply stored. *)
Lemma relative_optional_round_trip_run :
  Patch.relativeVersionName PatchExamples.petstore
    (Patch.optionalVersionName PatchExamples.petstore "1.0.0") = inr "1.0.0".
Proof.
  destruct (PatchFacts.relative_optional_round_trip PatchExamples.petstore)
    as [Hid _].
  - split; reflexivity.
  - apply (Hid "1.0.0"). reflexivity.
Defined.

(** A full version name handed to apply as an id. *)
Lemma optional_name_of_full_name_run :
  exists e,
    Names.ParseVersion
      (Patch.optionalVersionName PatchExamples.petstore
         "projects/p/locations/global/apis/petstore/versions/1.0.0") = inl e.
Proof.
  destruct (PatchFacts.optional_name_of_full_name
              (registry := MoreExamples.noRegistry) (fun _ => inr [])
              PatchExamples.petstore
              "projects/p/locations/global/apis/petstore/versions/1.0.0")
    as [Hversion _].
  - simpl. lia.
  - exact Hversion.
Defined.

(** The nested export of the petstore API over three listed artifacts. *)
Lemma newApi_document_run :
  let registry := PatchExamples.listedRegistry PatchExamples.threeArtifacts in
  match Patch.newApi (PatchExamples.petstoreMessage "" "") true with
  | (inr api, _) =>
      exists artifacts,
        Patch.Artifacts (Patch.doc_Data api) = Some artifacts /\
        Forall (fun a => Patch.ApiVersion (Patch.doc_Header a) = "" /\
                         Patch.md_Parent (Patch.hd_Metadata (Patch.doc_Header a))
                         = "") artifacts
  | (inl _, _) => False
  end.
Proof.
  intros registry.
  destruct (Patch.newApi (PatchExamples.petstoreMessage "" "") true)
    as [[e | api] log] eqn:Hnew.
  - vm_compute in Hnew. discriminate Hnew.
  - destruct (PatchFacts.newApi_document _ _ _ _ Hnew) as (_ & _ & Hnested).
    destruct (Hnested eq_refl) as (vs & ds & arts & _ & _ & Harts & _ & _ & Hunset).
    exists arts. split; assumption.
Defined.

(** Applying a document whose first deployment is refused. *)
Lemma applyApiPatchBytes_calls_run :
  let applier :=
    MoreExamples.countingApplier MoreExamples.noRegistry
      (inr MoreExamples.nestedDocument) in
  Patch.applyApiPatchBytes (applier := applier) [] "projects/p/locations/global" 0%nat
  = Patch.performAll (applier := applier)
      (Patch.plannedCalls MoreExamples.nestedDocument {| Names.ProjectID := "p" |})
      0%nat [] /\
  (Patch.applyApiPatchBytes (applier := applier) [] "projects/p/locations/global" 0%nat).1
  = Some (Patch.ErrExternal "deployment") /\
  length (Patch.applyApiPatchBytes (applier := applier) [] "projects/p/locations/global" 0%nat).2.2
  = 3%nat.
Proof.
  intros applier.
  destruct (PatchFacts.applyApiPatchBytes_calls (applier := applier)
              [] "projects/p/locations/global" 0%nat
              MoreExamples.nestedDocument {| Names.ProjectID := "p" |}
              eq_refl eq_refl) as [Heq _].
  split; [exact Heq |]. rewrite Heq. split; reflexivity.
Defined.

(** Applying the exported petstore document. *)
Lemma export_apply_round_trip_run :
  let registry := PatchExamples.listedRegistry PatchExamples.threeArtifacts in
  let message :=
    PatchExamples.petstoreMessage
      "projects/p/locations/global/apis/petstore/versions/1.0.0" "" in
  let applier :=
    MoreExamples.countingApplier registry
      (inr (MoreExamples.exportedPetstore registry)) in
  exists r st' rest,
    Patch.applyApiPatchBytes (applier := applier) [] "projects/p/locations/global" 0%nat
    = (r, (st', Patch.CallUpdateApi
                  {| Patch.req_Api := message; Patch.req_AllowMissing := true |}
                :: rest)).
Proof.
  intros registry message applier.
  apply (PatchFacts.export_apply_round_trip (applier := applier)
           message false (MoreExamples.exportedPetstore registry) []
           [] PatchExamples.petstore 0%nat).
  - reflexivity.
  - reflexivity.
  - reflexivity.
  - right. eexists. split; reflexivity.
  - left. reflexivity.
Defined.

(** A resource whose name has a space. *)
Lemma CalculateScore_unparsable_name_run :
  let definition :=
    Examples.integerDefinition 0 100 []
      (Scoring.FormulaScore (Examples.lintFormula "score" "")) in
  let pk := MoreExamples.strictPackages definition in
  let client := Examples.storeClient ∅ in
  (Scoring.CalculateScore
     (MoreExamples.encodedDefinition "lint-error" [Byte.x01])
     MoreExamples.spacedResource false).2 = [] /\
  (Scoring.CalculateScore
     (MoreExamples.encodedDefinition "lint-error" [Byte.x01])
     MoreExamples.spacedResource false).1 <> None.
Proof.
  intros definition pk client.
  rewrite (ScoringFacts.CalculateScore_unparsable_name (pk := pk)
             (client := client)
             (MoreExamples.encodedDefinition "lint-error" [Byte.x01])
             MoreExamples.spacedResource false definition
             (Scoring.ErrStatus Scoring.CodeNotFound
                "projects/p/locations/global/apis/my api/artifacts/score-lint-error")
             eq_refl eq_refl).
  split; [reflexivity | discriminate].
Defined.

(** A score written at 100 s, over a definition updated at 10 ns and a
    lint artifact updated at 5 ns. *)
Lemma CalculateScore_up_to_date_run :
  let definition :=
    Examples.integerDefinition 0 100 []
      (Scoring.FormulaScore (Examples.lintFormula "score" "")) in
  let pk := Examples.fixedPackages definition in
  let client := Examples.storeClient (Examples.scoredStore 5 100000000000) in
  Scoring.CalculateScore (Examples.definitionArtifact 10)
    Examples.specResource false = (None, []).
Proof.
  intros definition pk client.
  destruct (ScoringFacts.CalculateScore_up_to_date (pk := pk) (client := client)
              (Examples.definitionArtifact 10) Examples.specResource false
              definition (Examples.lintFormula "score" "")
              (Examples.scoreArtifactAt 100000000000)
              (Scoring.art_name (Examples.lintArtifact 5))
              (Examples.lintArtifact 5)) as [_ Hrun].
  - reflexivity.
  - reflexivity.
  - vm_compute. reflexivity.
  - apply Z.leb_le. reflexivity.
  - reflexivity.
  - vm_compute. reflexivity.
  - apply Z.leb_le. reflexivity.
  - apply (Hrun {[ "score" := Scoring.VInt64 3 ]} (Scoring.VInt64 3)).
    + discriminate.
    + reflexivity.
    + reflexivity.
Defined.

(** A score written at 100 s, over a lint artifact updated at 200 s. *)
Lemma CalculateScore_stale_run :
  let definition :=
    Examples.integerDefinition 0 100 []
      (Scoring.FormulaScore (Examples.lintFormula "score" "")) in
  let pk := Examples.fixedPackages definition in
  let client :=
    Examples.storeClient (Examples.scoredStore 200000000000 100000000000) in
  exists score,
    Scoring.score_value score = Scoring.IntegerValue 3 0 100 /\
    Scoring.CalculateScore (Examples.definitionArtifact 10)
      Examples.specResource true = (None, [Scoring.EffPrintMessage score]).
Proof.
  intros definition pk client.
  destruct (Scoring.processScoreType definition (Scoring.VInt64 3)
              "projects/p/locations/global") as [e | score] eqn:Htype.
  - vm_compute in Htype. discriminate Htype.
  - exists score. split.
    + vm_compute in Htype. injection Htype as <-. reflexivity.
    + apply (ScoringFacts.CalculateScore_stale (pk := pk) (client := client)
               (Examples.definitionArtifact 10) Examples.specResource
               definition (Examples.lintFormula "score" "")
               (Examples.scoreArtifactAt 100000000000)
               (Scoring.art_name (Examples.lintArtifact 5))
               (Examples.lintArtifact 200000000000)
               {[ "score" := Scoring.VInt64 3 ]} (Scoring.VInt64 3) score).
      * reflexivity.
      * reflexivity.
      * vm_compute. reflexivity.
      * reflexivity.
      * discriminate.
      * vm_compute. reflexivity.
      * right. apply Z.ltb_lt. reflexivity.
      * reflexivity.
      * reflexivity.
      * exact Htype.
Defined.

(** A rollup of two formulas over the lint artifact, all up to date. *)
Lemma CalculateScore_rollup_up_to_date_run :
  let r := Examples.rollup [Examples.lintFormula "score" "a";
                            Examples.lintFormula "score" "b"] in
  let definition :=
    Examples.integerDefinition 0 100 [] (Scoring.FormulaRollup r) in
  let pk := Examples.fixedPackages definition in
  let client := Examples.storeClient (Examples.scoredStore 5 100000000000) in
  Scoring.CalculateScore (Examples.definitionArtifact 10)
    Examples.specResource false = (None, []).
Proof.
  intros r definition pk client.
  apply (ScoringFacts.CalculateScore_rollup_up_to_date (pk := pk)
           (client := client) (Examples.definitionArtifact 10)
           Examples.specResource false definition r
           (Examples.scoreArtifactAt 100000000000)).
  - reflexivity.
  - reflexivity.
  - vm_compute. reflexivity.
  - apply Z.leb_le. reflexivity.
  - discriminate.
  - discriminate.
  - repeat constructor; discriminate.
  - repeat constructor.
Defined.

(** A percent definition with one threshold, on NaN. *)
Lemma processScoreType_percent_not_finite_run :
  let definition :=
    MoreExamples.percentDefinition [Examples.threshold Scoring.OK 0 100] in
  let pk := Examples.fixedPackages definition in
  exists score,
    Scoring.processScoreType definition (Scoring.VFloat64 S754_nan)
      "projects/p/locations/global" = inr score /\
    Scoring.score_severity score = Scoring.SEVERITY_UNSPECIFIED.
Proof.
  intros definition pk.
  destruct (ScoringFacts.processScoreType_percent_not_finite (pk := pk)
              definition
              {| Scoring.percent_thresholds := [Examples.threshold Scoring.OK 0 100] |}
              "projects/p/locations/global" eq_refl)
    as (_ & score & Hscore & _ & Hseverity).
  exists score. split; assumption.
Defined.

(** A listing of three definitions, the second of which does not decode. *)
Lemma FetchScoreDefinitions_decodable_run :
  let definition :=
    Examples.integerDefinition 0 100 [] Scoring.FormulaUnset in
  let pk := MoreExamples.strictPackages definition in
  let listing := MoreExamples.definitionListing in
  Scoring.FetchScoreDefinitions "projects/p"
  = inr [ MoreExamples.encodedDefinition
            "projects/p/locations/global/artifacts/lint-error" [Byte.x01];
          MoreExamples.encodedDefinition
            "projects/p/locations/global/artifacts/lint-warning" [Byte.x02] ].
Proof.
  intros definition pk listing.
  destruct (ScoringFacts.FetchScoreDefinitions_decodable (pk := pk)
              (listing := listing) "projects/p"
              "projects/p/locations/global/artifacts/-" eq_refl) as [Heq _].
  rewrite Heq. reflexivity.
Defined.

(** A page size beyond the int32 range, with a page token. *)
Lemma setPaging_page_size_run :
  let req := {| Gapic.lp_PageSize := 50; Gapic.lp_PageToken := "";
                Gapic.lp_Filter := "name"; Gapic.lp_OrderBy := "" |} in
  Gapic.lp_PageSize (Gapic.setPaging (2 ^ 40) "next" req) = 2147483647 /\
  Gapic.lp_PageToken (Gapic.setPaging (2 ^ 40) "next" req) = "next".
Proof.
  intros req.
  destruct (GapicFacts.setPaging_page_size (2 ^ 40) "next" req)
    as (Hsize & Htoken & _).
  - lia.
  - split; [rewrite Hsize | rewrite Htoken]; reflexivity.
Defined.

(** Activating the configuration that can be read. *)
Lemma RunE_guarded_run :
  let config := MoreExamples.oneConfig in
  exists outcome,
    Configurations.RunE
      {| Configurations.SilenceUsage := false;
         Configurations.SilenceErrors := false |} ["staging"] "default"
    = Some outcome /\
    Configurations.SilenceUsage (Configurations.command outcome) = true /\
    Configurations.SilenceErrors (Configurations.command outcome) = true /\
    Configurations.returned outcome = None /\
    Configurations.directory outcome = "staging".
Proof.
  intros config.
  destruct (ConfigurationsFacts.RunE_guarded (config := config)
              {| Configurations.SilenceUsage := false;
                 Configurations.SilenceErrors := false |}
              ["staging"] "default")
    as (outcome & Hrun & Husage & Herrors & _).
  - discriminate.
  - exists outcome. split; [exact Hrun |].
    split; [exact Husage |]. split; [exact Herrors |].
    injection Hrun as <-. split; reflexivity.
Defined.

(** The first score of a spec that has a lint artifact only. *)
Lemma CalculateScore_first_score_run :
  let definition :=
    Examples.integerDefinition 0 100 []
      (Scoring.FormulaScore (Examples.lintFormula "score" "")) in
  let pk := Examples.fixedPackages definition in
  let client := Examples.storeClient (Examples.lintStore 5) in
  exists uploaded,
    Scoring.art_name uploaded = Scoring.art_name (Examples.scoreArtifactAt 0) /\
    Scoring.CalculateScore (Examples.definitionArtifact 10)
      Examples.specResource false = (None, [Scoring.EffSetArtifact uploaded]).
Proof.
  intros definition pk client.
  destruct (Scoring.processScoreType definition (Scoring.VInt64 3)
              "projects/p/locations/global") as [e | score] eqn:Htype.
  - vm_compute in Htype. discriminate Htype.
  - destruct (ScoringFacts.CalculateScore_first_score (pk := pk)
                (client := client)
                (Examples.definitionArtifact 10) Examples.specResource
                definition (Examples.lintFormula "score" "")
                (Scoring.ErrStatus Scoring.CodeNotFound
                   (Scoring.art_name (Examples.scoreArtifactAt 0)))
                (Scoring.art_name (Examples.lintArtifact 5))
                (Examples.lintArtifact 5)
                {[ "score" := Scoring.VInt64 3 ]} (Scoring.VInt64 3) score)
      as [_ Hupload].
    + reflexivity.
    + reflexivity.
    + vm_compute. reflexivity.
    + reflexivity.
    + reflexivity.
    + discriminate.
    + vm_compute. reflexivity.
    + reflexivity.
    + reflexivity.
    + exact Htype.
    + eexists. split; [| apply (Hupload []); reflexivity]. reflexivity.
Defined.

(** A boolean definition without display texts, on [true]. *)
Lemma processScoreType_boolean_display_run :
  let definition := Examples.booleanDefinition [] in
  let pk := Examples.fixedPackages definition in
  exists score,
    Scoring.processScoreType definition (Scoring.VBool true)
      "projects/p/locations/global" = inr score /\
    Scoring.score_value score = Scoring.BooleanValue true "true".
Proof.
  intros definition pk.
  destruct (ScoringFacts.processScoreType_boolean_display (pk := pk) definition
              {| Scoring.display_true := ""; Scoring.display_false := "";
                 Scoring.boolean_thresholds := [] |} true
              "projects/p/locations/global" eq_refl)
    as (score & display & Hscore & Hvalue & _ & ->).
  exists score. split; assumption.
Defined.

(** A registry that lists one version, which cannot be built. *)
Lemma newApi_version_failure_run :
  let registry := MoreExamples.oneVersionRegistry in
  exists log,
    Patch.ExportAPI (fun _ => inr []) (PatchExamples.petstoreMessage "" "") true
    = (inl (Patch.ErrExternal "no versions"), log).
Proof.
  intros registry.
  destruct (PatchFacts.newApi_version_failure (registry := registry)
              (fun _ => inr []) (PatchExamples.petstoreMessage "" "")
              PatchExamples.petstore [] "1.0.0" []
              (Patch.ErrExternal "no versions") [])
    as (log & _ & Hexport).
  - reflexivity.
  - eexists. reflexivity.
  - eexists. reflexivity.
  - reflexivity.
  - constructor.
  - reflexivity.
  - exists log. exact Hexport.
Defined.

(** An integer definition on a boolean result. *)
Lemma processScoreType_type_mismatch_run :
  let definition :=
    Examples.integerDefinition 0 100 [] Scoring.FormulaUnset in
  let pk := Examples.fixedPackages definition in
  exists e,
    Scoring.processScoreType definition (Scoring.VBool true)
      "projects/p/locations/global" = inl e.
Proof.
  intros definition pk.
  apply (ScoringFacts.processScoreType_type_mismatch (pk := pk)).
  left. split; [left; eexists; reflexivity |].
  split; intros; discriminate.
Defined.

(** The effects of the first score of a spec. *)
Lemma CalculateScore_effects_run :
  let definition :=
    Examples.integerDefinition 0 100 []
      (Scoring.FormulaScore (Examples.lintFormula "score" "")) in
  let pk := Examples.fixedPackages definition in
  let client := Examples.storeClient (Examples.lintStore 5) in
  (length (Scoring.CalculateScore (Examples.definitionArtifact 10)
             Examples.specResource false).2 <= 1)%nat.
Proof.
  intros definition pk client.
  destruct (ScoringFacts.CalculateScore_effects (pk := pk) (client := client)
              (Examples.definitionArtifact 10) Examples.specResource false)
    as [Hlength _].
  exact Hlength.
Defined.

(** A listing that ends with an error after an artifact that does not
    decode. *)
Lemma collectChildArtifacts_error_run :
  let registry := MoreExamples.unavailableRegistry in
  (Patch.collectChildArtifacts (Names.Api_Artifact PatchExamples.petstore "-")).1
  = inl (Patch.ErrExternal "unavailable").
Proof.
  intros registry.
  apply (PatchFacts.collectChildArtifacts_error (registry := registry)).
  reflexivity.
Defined.

End Runs.
